(** * mkvstore: a Redis-style key-value facade over one SQL relation

    Shallow embedding of the store, its errors and its cleanup routine
    ([cleanup.go]): the pattern translator, the expiry checks of the read paths, the six
    record operations, the detached deletions they spawn and the
    background cleanup routine, followed by the properties of the
    specification that concern them. *)

From Stdlib Require Import ZArith String Ascii List Bool Lia.
From stdpp Require Import base option list gmap strings fin_maps.

Local Open Scope string_scope.
Local Open Scope list_scope.
Local Open Scope Z_scope.

(** ** The [time] package, as far as the store uses it *)

Module GoTime.

(** A [time.Time] without monotonic reading is an instant on the wall
    clock; it is modelled as its number of nanoseconds since the Unix
    epoch.  A [time.Duration] is an [int64] count of nanoseconds. *)
Abbreviation Time := Z (only parsing).
Abbreviation Duration := Z (only parsing).

Definition Nanosecond : Z := 1.
Definition Millisecond : Z := 1000000.
Definition Second : Z := 1000000000.

Definition minDuration : Z := - 2 ^ 63.
Definition maxDuration : Z := 2 ^ 63 - 1.

(** [t.Unix()]: whole seconds since the epoch, rounded down. *)
Definition Unix (t : Time) : Z := t / Second.

Definition maxInt64 : Z := 2 ^ 63 - 1.

(** The seconds from 1 January of year 1 to the Unix epoch. *)
Definition unixToInternal : Z := 62135596800.

(** The largest second that [time.Unix] converts without wrap-around. *)
Definition lastUnixSecond : Z := maxInt64 - unixToInternal.

(** [time.Unix(sec, 0)]: a [Time] keeps its seconds counted from year 1,
    the [int64] sum [sec + unixToInternal].  [sec] is an [int64] and the
    constant is positive, so the sum can only overflow upwards, and it
    then wraps around by 2^64: the instant lands in the far past. *)
Definition time_Unix (sec : Z) : Time :=
  let internal := sec + unixToInternal in
  let wrapped := if maxInt64 <? internal then internal - 2 ^ 64 else internal in
  (wrapped - unixToInternal) * Second.

(** [t.Add(d)]. *)
Definition Add (t : Time) (d : Duration) : Time := t + d.

(** [t.Before(u)]. *)
Definition Before (t u : Time) : bool := t <? u.

(** [t.Sub(u)]: the difference, saturated to the range of [Duration]. *)
Definition Sub (t u : Time) : Duration :=
  if t - u <? minDuration then minDuration
  else if maxDuration <? t - u then maxDuration
  else t - u.

End GoTime.
Export GoTime.

(** ** Pattern translator *)

Module Replacer.

(** [strings.NewReplacer] with single-byte old strings builds a
    byte-indexed table of replacements; the table is filled from the last
    pair to the first, so the first pair given for a byte wins. *)
Fixpoint NewReplacer (oldnew : list (ascii * string)) (b : ascii) : option string :=
  match oldnew with
  | [] => None
  | (o, n) :: rest =>
      if Ascii.eqb b o then Some n else NewReplacer rest b
  end.

(** [Replace]: one pass over the bytes of [s]; a byte with a table entry
    is replaced by it, any other byte is copied.  Output is never
    scanned again. *)
Fixpoint Replace (r : ascii -> option string) (s : string) : string :=
  match s with
  | EmptyString => EmptyString
  | String b rest =>
      match r b with
      | Some n => n +:+ Replace r rest
      | None => String b (Replace r rest)
      end
  end.

End Replacer.

Definition globToSQLLike (glob : string) : string :=
  let replacer := Replacer.NewReplacer
    [ ("%"%char, "\%");
      ("_"%char, "\_");
      ("*"%char, "%");
      ("?"%char, "_") ] in
  Replacer.Replace replacer glob.

(** The translation as the specification words it: what each single
    character of the pattern becomes. *)
Definition translate_char (c : ascii) : string :=
  if Ascii.eqb c "%" then "\%"
  else if Ascii.eqb c "_" then "\_"
  else if Ascii.eqb c "*" then "%"
  else if Ascii.eqb c "?" then "_"
  else String c EmptyString.

Fixpoint translate (pattern : string) : string :=
  match pattern with
  | EmptyString => EmptyString
  | String c rest => translate_char c +:+ translate rest
  end.

(** ** The storage collaborator *)

(** One row of the backing table:
    [key TEXT PRIMARY KEY, value TEXT, type TEXT NOT NULL DEFAULT 'string',
     expires_at INTEGER NULL].  The key is the index of the relation. *)
Record Row := mkRow {
  value : option string;
  type : string;
  expires_at : option Z
}.

(** Failures of the collaborator are opaque to the store. *)
Inductive Fault :=
  | FaultClosed                 (* sql: database is closed *)
  | FaultNullValue              (* converting NULL to string is unsupported *)
  | FaultOther (msg : string).

(** The [*sql.DB] handle: the relation it gives access to, and whether
    [Close] has been called on it. *)
Record DB := mkDB {
  rel : gmap string Row;
  db_closed : bool
}.

(** Every call may fail: [env] is the failure the environment injects into
    this call, if any; a closed handle fails every call. *)
Definition call_fault (d : DB) (env : option Fault) : option Fault :=
  if db_closed d then Some FaultClosed else env.

(** [INSERT OR REPLACE INTO t (key, value, type, expires_at) VALUES (...)]. *)
Definition db_upsert (d : DB) (env : option Fault) (key : string) (r : Row)
  : DB * option Fault :=
  match call_fault d env with
  | Some f => (d, Some f)
  | None => (mkDB (<[key := r]> (rel d)) (db_closed d), None)
  end.

(** [DELETE FROM t WHERE key = ?]. *)
Definition db_delete (d : DB) (env : option Fault) (key : string)
  : DB * option Fault :=
  match call_fault d env with
  | Some f => (d, Some f)
  | None => (mkDB (delete key (rel d)) (db_closed d), None)
  end.

(** The predicate of the bulk delete:
    [expires_at IS NOT NULL AND expires_at < ?]. *)
Definition sql_expired (threshold : Z) (r : Row) : bool :=
  match expires_at r with
  | Some e => e <? threshold
  | None => false
  end.

(** [DELETE FROM t WHERE expires_at IS NOT NULL AND expires_at < ?],
    with the number of rows affected. *)
Definition db_delete_expired (d : DB) (env : option Fault) (threshold : Z)
  : DB * (Fault + Z) :=
  match call_fault d env with
  | Some f => (d, inl f)
  | None =>
      let kept := filter (fun kr => sql_expired threshold kr.2 = false) (rel d) in
      (mkDB kept (db_closed d), inr (Z.of_nat (size (rel d)) - Z.of_nat (size kept)))
  end.

(** [QueryRow(SELECT ... WHERE key = ?)] followed by [Scan]. *)
Inductive RowResult :=
  | ErrNoRows
  | RowFault (f : Fault)
  | RowFound (r : Row).

Definition db_QueryRow (d : DB) (env : option Fault) (key : string) : RowResult :=
  match call_fault d env with
  | Some f => RowFault f
  | None =>
      match rel d !! key with
      | None => ErrNoRows
      | Some r => RowFound r
      end
  end.

(** What [rows.Scan(&key, &keyType, &expiresAt)] yields for one row of
    a [Query]. *)
Inductive RowScan :=
  | RowScanned (key keyType : string) (expiresAt : option Z)
  | RowScanFault (f : Fault).

(** What a [Query] yields: a failure of the query itself, or the rows
    that [rows.Next] delivered before it returned false, with the error
    [rows.Err] reports afterwards. *)
Inductive QueryResult :=
  | QueryFault (f : Fault)
  | QueryRows (rows : list RowScan) (err : option Fault).

(** The failures the environment may inject into one [Keys] call: into the
    query, into the decoding of the row of a given key, and into the
    iteration after a number of rows. *)
Record KeysEnv := mkKeysEnv {
  query_fault : option Fault;
  scan_fault : string -> option Fault;
  next_fault : option (nat * Fault)
}.

Definition no_faults : KeysEnv := mkKeysEnv None (fun _ => None) None.

Section Collaborator.

(** [sql_like p k]: the storage engine's [k LIKE p ESCAPE '\']. *)
Variable sql_like : string -> string -> bool.

Definition scan_of (env : KeysEnv) (kr : string * Row) : RowScan :=
  match scan_fault env kr.1 with
  | Some f => RowScanFault f
  | None => RowScanned kr.1 (type kr.2) (expires_at kr.2)
  end.

(** [SELECT key, type, expires_at FROM t WHERE key LIKE ? ESCAPE '\']. *)
Definition db_Query (d : DB) (env : KeysEnv) (sqlPattern : string) : QueryResult :=
  match call_fault d (query_fault env) with
  | Some f => QueryFault f
  | None =>
      let matched :=
        filter (fun kr => sql_like sqlPattern kr.1 = true) (map_to_list (rel d)) in
      match next_fault env with
      | Some (n, f) => QueryRows (map (scan_of env) (take n matched)) (Some f)
      | None => QueryRows (map (scan_of env) matched) None
      end
  end.

End Collaborator.

(** ** Errors and log lines *)

(** The operation context that [fmt.Errorf] wraps around a failure of the
    collaborator. *)
Inductive Context :=
  | CtxOpen
  | CtxPing
  | CtxCreateTable (table : string)
  | CtxSet (key table : string)
  | CtxGet (key table : string)
  | CtxDel (key table : string)
  | CtxExists (key table : string)
  | CtxTTL (key table : string)
  | CtxKeysQuery (pattern sqlPattern table : string)
  | CtxKeysRows (table : string).

Inductive error :=
  | ErrKeyNotFound
  | ErrWrongType
  | ErrEmptyTable
  | Errorf (ctx : Context) (cause : Fault)
  | ErrCloseFailed (cause : Fault).

Inductive LogMsg :=
  | MsgCleanupNilDB
  | MsgCleanupInterval
  | MsgCleanupStarting (table : string) (interval : Z)
  | MsgCleanupStopped (table : string)
  | MsgCleanupError (table : string) (cause : Fault)
  | MsgCleanupDeleted (rowsAffected : Z) (table : string)
  | MsgScanError (table : string) (cause : Fault).

(** ** The store *)

(** A cleanup goroutine is either just spawned (it has not yet printed its
    first line) or in its [select] loop. *)
Inductive SweeperPC := SwSpawned | SwLooping.

Record Sweeper := mkSweeper {
  interval : Z;
  pc : SweeperPC
}.

(** [Store], with the goroutines it has spawned and what it has printed.
    [db] is [None] for a nil handle; [ctx] is [None] for a nil context and
    otherwise tells whether [cancel] has been called; [detached] lists the
    keys of the [go s.Del(key)] calls that have not run yet. *)
Record Store := mkStore {
  db : option DB;
  table : string;
  ctx : option bool;
  sweepers : list Sweeper;
  detached : list string;
  stdout : list LogMsg;
  stderr : list LogMsg
}.

Definition with_db (s : Store) (d : DB) : Store :=
  mkStore (Some d) (table s) (ctx s) (sweepers s) (detached s) (stdout s) (stderr s).

Definition with_sweepers (s : Store) (sw : list Sweeper) : Store :=
  mkStore (db s) (table s) (ctx s) sw (detached s) (stdout s) (stderr s).

Definition with_detached (s : Store) (ks : list string) : Store :=
  mkStore (db s) (table s) (ctx s) (sweepers s) ks (stdout s) (stderr s).

(** [go s.Del(key)] *)
Definition go_Del (s : Store) (key : string) : Store :=
  with_detached s (detached s ++ [key]).

(** [fmt.Println] / [fmt.Printf] *)
Definition print (s : Store) (m : LogMsg) : Store :=
  mkStore (db s) (table s) (ctx s) (sweepers s) (detached s) (stdout s ++ [m]) (stderr s).

(** [fmt.Fprintf(os.Stderr, ...)] *)
Definition eprint (s : Store) (m : LogMsg) : Store :=
  mkStore (db s) (table s) (ctx s) (sweepers s) (detached s) (stdout s) (stderr s ++ [m]).

(** A call on the store returns, leaving the store in a new state, or
    panics (a method of a nil [*sql.DB] dereferences it). *)
Inductive outcome (A : Type) :=
  | Returns (s : Store) (r : A)
  | Panics.
Arguments Returns {A} s r.
Arguments Panics {A}.

(** How [Open] may fail. *)
Inductive OpenEnv :=
  | OpenHealthy
  | OpenFails (f : Fault)
  | PingFails (f : Fault)
  | CreateTableFails (f : Fault).

(** [Open(dbPath, table)]; [existing] is the content the table has in the
    database at [dbPath] if it is already there, and empty otherwise. *)
Definition Open (existing : gmap string Row) (table : string) (env : OpenEnv)
  : Store + error :=
  if String.eqb table "" then inr ErrEmptyTable
  else
    match env with
    | OpenFails f => inr (Errorf CtxOpen f)
    | PingFails f => inr (Errorf CtxPing f)
    | CreateTableFails f => inr (Errorf (CtxCreateTable table) f)
    | OpenHealthy =>
        inl (mkStore (Some (mkDB existing false)) table (Some false) [] [] [] [])
    end.

Definition Store_Close (s : Store) (env : option Fault) : Store * option error :=
  let ctx' := match ctx s with Some _ => Some true | None => None end in
  match db s with
  | Some d =>
      (mkStore (Some (mkDB (rel d) true)) (table s) ctx' (sweepers s)
               (detached s) (stdout s) (stderr s),
       if db_closed d then None else ErrCloseFailed <$> env)
  | None =>
      (mkStore None (table s) ctx' (sweepers s) (detached s) (stdout s) (stderr s),
       None)
  end.

Definition Store_Set (s : Store) (env : option Fault)
    (key value : string) (ttl : Duration) (now : Time) : outcome (option error) :=
  let expiresAt := if 0 <? ttl then Some (Unix (Add now ttl)) else None in
  match db s with
  | None => Panics
  | Some d =>
      match db_upsert d env key (mkRow (Some value) "string" expiresAt) with
      | (_, Some f) => Returns s (Some (Errorf (CtxSet key (table s)) f))
      | (d', None) => Returns (with_db s d') None
      end
  end.

Definition Store_Get (s : Store) (env : option Fault) (key : string) (now : Time)
  : outcome (string * option error) :=
  match db s with
  | None => Panics
  | Some d =>
      match db_QueryRow d env key with
      | ErrNoRows => Returns s ("", Some ErrKeyNotFound)
      | RowFault f => Returns s ("", Some (Errorf (CtxGet key (table s)) f))
      | RowFound r =>
          match value r with
          | None => Returns s ("", Some (Errorf (CtxGet key (table s)) FaultNullValue))
          | Some value =>
              if negb (String.eqb (type r) "string") then
                Returns s ("", Some ErrWrongType)
              else
                match expires_at r with
                | Some expiresAt =>
                    if Unix now >? expiresAt then
                      Returns (go_Del s key) ("", Some ErrKeyNotFound)
                    else Returns s (value, None)
                | None => Returns s (value, None)
                end
          end
      end
  end.

Definition Store_Del (s : Store) (env : option Fault) (key : string)
  : outcome (option error) :=
  match db s with
  | None => Panics
  | Some d =>
      match db_delete d env key with
      | (_, Some f) => Returns s (Some (Errorf (CtxDel key (table s)) f))
      | (d', None) => Returns (with_db s d') None
      end
  end.

Definition Store_Exists (s : Store) (env : option Fault) (key : string) (now : Time)
  : outcome (bool * option error) :=
  match db s with
  | None => Panics
  | Some d =>
      match db_QueryRow d env key with
      | ErrNoRows => Returns s (false, None)
      | RowFault f => Returns s (false, Some (Errorf (CtxExists key (table s)) f))
      | RowFound r =>
          match expires_at r with
          | Some expiresAt =>
              if Unix now >? expiresAt then Returns (go_Del s key) (false, None)
              else Returns s (true, None)
          | None => Returns s (true, None)
          end
      end
  end.

Definition Store_TTL (s : Store) (env : option Fault) (key : string) (now : Time)
  : outcome (Duration * option error) :=
  match db s with
  | None => Panics
  | Some d =>
      match db_QueryRow d env key with
      | ErrNoRows => Returns s (0, Some ErrKeyNotFound)
      | RowFault f => Returns s (0, Some (Errorf (CtxTTL key (table s)) f))
      | RowFound r =>
          if negb (String.eqb (type r) "string") then
            Returns s (0, Some ErrWrongType)
          else
            match expires_at r with
            | None => Returns s (-1, None)
            | Some expiresAt =>
                let expiryTime := time_Unix expiresAt in
                if Before expiryTime now then
                  Returns (go_Del s key) (0, Some ErrKeyNotFound)
                else Returns s (Sub expiryTime now, None)
            end
      end
  end.

(** ** Keys *)

(** What [Keys] does to its surroundings, in the order it does it: the
    query, the decoding of one delivered row, the end of the iteration
    ([rows.Next] returned false), the spawning of one detached deletion. *)
Inductive Event :=
  | EvQuery (sqlPattern : string)
  | EvScan (r : RowScan)
  | EvRowsEnd
  | EvGo (key : string).

(** The variables of the scan loop. *)
Record ScanLoop := mkScanLoop {
  keys : list string;
  keysToDelete : list string;
  loop_store : Store;
  loop_trace : list Event
}.

(** One iteration of [for rows.Next() { ... }]; [clock key] is the
    [time.Now()] read while the row of [key] is examined. *)
Definition scan_row (clock : string -> Time) (st : ScanLoop) (r : RowScan) : ScanLoop :=
  let tr := loop_trace st ++ [EvScan r] in
  match r with
  | RowScanFault f =>
      mkScanLoop (keys st) (keysToDelete st)
        (eprint (loop_store st) (MsgScanError (table (loop_store st)) f)) tr
  | RowScanned key keyType expiresAt =>
      if negb (String.eqb keyType "string") then
        mkScanLoop (keys st) (keysToDelete st) (loop_store st) tr
      else
        match expiresAt with
        | Some e =>
            if Unix (clock key) >? e then
              mkScanLoop (keys st) (keysToDelete st ++ [key]) (loop_store st) tr
            else mkScanLoop (keys st ++ [key]) (keysToDelete st) (loop_store st) tr
        | None => mkScanLoop (keys st ++ [key]) (keysToDelete st) (loop_store st) tr
        end
  end.

(** One iteration of [for _, key := range keysToDelete { go s.Del(key) }]. *)
Definition spawn_delete (st : Store * list Event) (key : string) : Store * list Event :=
  (go_Del st.1 key, st.2 ++ [EvGo key]).

(** [Keys] on the result of its query. *)
Definition Keys_on (s : Store) (clock : string -> Time)
    (pattern sqlPattern : string) (q : QueryResult)
  : outcome (list string * option error) * list Event :=
  match q with
  | QueryFault f =>
      (Returns s ([], Some (Errorf (CtxKeysQuery pattern sqlPattern (table s)) f)),
       [EvQuery sqlPattern])
  | QueryRows rows err =>
      let st := fold_left (scan_row clock) rows
                  (mkScanLoop [] [] s [EvQuery sqlPattern]) in
      let tr := loop_trace st ++ [EvRowsEnd] in
      match err with
      | Some f =>
          (Returns (loop_store st) ([], Some (Errorf (CtxKeysRows (table s)) f)), tr)
      | None =>
          let '(s', tr') := fold_left spawn_delete (keysToDelete st) (loop_store st, tr) in
          (Returns s' (keys st, None), tr')
      end
  end.

Section Keys.

Variable sql_like : string -> string -> bool.

Definition Store_Keys_run (s : Store) (env : KeysEnv) (clock : string -> Time)
    (pattern : string)
  : outcome (list string * option error) * list Event :=
  let sqlPattern := globToSQLLike pattern in
  match db s with
  | None => (Panics, [])
  | Some d => Keys_on s clock pattern sqlPattern (db_Query sql_like d env sqlPattern)
  end.

Definition Store_Keys (s : Store) (env : KeysEnv) (clock : string -> Time)
    (pattern : string) : outcome (list string * option error) :=
  (Store_Keys_run s env clock pattern).1.

End Keys.

(** ** Background activity *)

(** [RunCleanup(interval)] *)
Definition Store_RunCleanup (s : Store) (interval : Duration) : Store :=
  match db s with
  | None => print s MsgCleanupNilDB
  | Some _ =>
      if interval <=? 0 then print s MsgCleanupInterval
      else with_sweepers s (sweepers s ++ [mkSweeper interval SwSpawned])
  end.

(** What the [select] of a cleanup goroutine picks. *)
Inductive Select :=
  | SelDone
  | SelTick (now : Time) (env : option Fault).

(** Body of [case <-ticker.C]. *)
Definition cleanup_tick (s : Store) (d : DB) (now : Time) (env : option Fault) : Store :=
  match db_delete_expired d env (Unix now) with
  | (_, inl f) => eprint s (MsgCleanupError (table s) f)
  | (d', inr rowsAffected) =>
      if rowsAffected >? 0 then
        print (with_db s d') (MsgCleanupDeleted rowsAffected (table s))
      else with_db s d'
  end.

(** One step of the [i]-th cleanup goroutine; [None] when it cannot take
    the step. *)
Definition sweeper_step (s : Store) (i : nat) (sel : Select) : option Store :=
  match sweepers s !! i, db s with
  | Some sw, Some d =>
      match pc sw with
      | SwSpawned =>
          Some (print (with_sweepers s (<[i := mkSweeper (interval sw) SwLooping]> (sweepers s)))
                      (MsgCleanupStarting (table s) (interval sw)))
      | SwLooping =>
          match sel with
          | SelDone =>
              match ctx s with
              | Some true =>
                  Some (print (with_sweepers s (delete i (sweepers s)))
                              (MsgCleanupStopped (table s)))
              | _ => None
              end
          | SelTick now env => Some (cleanup_tick s d now env)
          end
      end
  | _, _ => None
  end.

(** The [i]-th pending [go s.Del(key)] runs; its error is dropped. *)
Definition run_detached (s : Store) (i : nat) (env : option Fault) : option Store :=
  match detached s !! i with
  | None => None
  | Some key =>
      match Store_Del (with_detached s (delete i (detached s))) env key with
      | Returns s' _ => Some s'
      | Panics => None
      end
  end.

(** ** Runs of the public surface *)

(** One thing that happens to a store: a call of the public surface with
    what the environment contributes to it (clock readings, injected
    failures), or a step of a goroutine the store has spawned. *)
Inductive Action :=
  | ASet (env : option Fault) (key value : string) (ttl : Duration) (now : Time)
  | AGet (env : option Fault) (key : string) (now : Time)
  | ADel (env : option Fault) (key : string)
  | AExists (env : option Fault) (key : string) (now : Time)
  | ATTL (env : option Fault) (key : string) (now : Time)
  | AKeys (env : KeysEnv) (clock : string -> Time) (pattern : string)
  | ARunCleanup (interval : Duration)
  | AClose (env : option Fault)
  | ADetached (i : nat) (env : option Fault)
  | ASweeper (i : nat) (sel : Select).

Definition returned {A} (o : outcome A) : option Store :=
  match o with
  | Returns s _ => Some s
  | Panics => None
  end.

Section Runs.

Variable sql_like : string -> string -> bool.

Definition perform (s : Store) (a : Action) : option Store :=
  match a with
  | ASet env key value ttl now => returned (Store_Set s env key value ttl now)
  | AGet env key now => returned (Store_Get s env key now)
  | ADel env key => returned (Store_Del s env key)
  | AExists env key now => returned (Store_Exists s env key now)
  | ATTL env key now => returned (Store_TTL s env key now)
  | AKeys env clock pattern => returned (Store_Keys sql_like s env clock pattern)
  | ARunCleanup interval => Some (Store_RunCleanup s interval)
  | AClose env => Some (Store_Close s env).1
  | ADetached i env => run_detached s i env
  | ASweeper i sel => sweeper_step s i sel
  end.

Fixpoint run (s : Store) (acts : list Action) : option Store :=
  match acts with
  | [] => Some s
  | a :: rest =>
      match perform s a with
      | Some s' => run s' rest
      | None => None
      end
  end.

(** The states of a store used through the public surface only: it is
    opened on a fresh table, or on the table an earlier store of that kind
    left behind, and then only acted upon as above. *)
Inductive reachable : Store -> Prop :=
  | reach_fresh table s0 :
      Open ∅ table OpenHealthy = inl s0 -> reachable s0
  | reach_reopen s d table s0 :
      reachable s -> db s = Some d ->
      Open (rel d) table OpenHealthy = inl s0 -> reachable s0
  | reach_step s a s' :
      reachable s -> perform s a = Some s' -> reachable s'.

End Runs.

(** Every row carries the type tag ["string"]. *)
Definition all_strings (s : Store) : Prop :=
  forall d key r, db s = Some d -> rel d !! key = Some r -> type r = "string".

(** A store as [Open] leaves it, on a table with the given rows. *)
Definition store_of (m : gmap string Row) : Store :=
  mkStore (Some (mkDB m false)) "kv" (Some false) [] [] [] [].

(** A table with a permanent row, a row that expired at second 100 and a
    row of another type. *)
Definition three_rows : gmap string Row :=
  <[ "a" := mkRow (Some "1") "string" None ]>
  (<[ "b" := mkRow (Some "2") "string" (Some 100) ]>
  (<[ "c" := mkRow (Some "3") "list" None ]> ∅)).

(** A matcher that accepts every key, as [LIKE '%'] does. *)
Definition like_any (sqlPattern key : string) : bool := true.

(** An environment in which the row of key ["a"] fails to decode. *)
Definition fault_on_a : KeysEnv :=
  mkKeysEnv None
    (fun key => if String.eqb key "a" then Some (FaultOther "scan") else None)
    None.

(** The outcome of a call, with [f] applied to the store it leaves. *)
Definition outcome_map {A} (f : Store -> Store) (o : outcome A) : outcome A :=
  match o with
  | Returns s r => Returns (f s) r
  | Panics => Panics
  end.

(** The variables of the scan loop, had [m] been printed beforehand. *)
Definition loop_print (m : LogMsg) (st : ScanLoop) : ScanLoop :=
  mkScanLoop (keys st) (keysToDelete st) (print (loop_store st) m) (loop_trace st).

(** A short session: a key is set with a TTL, the cleanup is started (its
    goroutine prints its first line), the key is read after its expiry,
    the deletion this spawned runs, a permanent key is set, the cleanup
    ticks, the store is closed and the cleanup stops. *)
Definition session : list Action :=
  [ ASet None "k" "v" (2 * Second) 0;
    ARunCleanup Second;
    ASweeper 0 (SelTick Second None);
    AGet None "k" (10 * Second);
    ADetached 0 None;
    ASet None "j" "w" 0 (11 * Second);
    ASweeper 0 (SelTick (12 * Second) None);
    AClose None;
    ASweeper 0 SelDone ].

(** The expiry policy of the specification: a record is expired at [now]
    (in whole seconds) when it has an expiration timestamp and that
    timestamp is strictly less than [now]. *)
Definition isExpired (expiresAt : option Z) (now : Z) : Prop :=
  exists e, expiresAt = Some e /\ e < now.

(** ** Quoting of the table name *)

Module GoStrings.

(** The double quote character. *)
Definition dquote : ascii := "034"%char.

(** The scan of [strings.Replace(s, old, new, -1)] for a non-empty [old]:
    leftmost occurrences that do not overlap are replaced; [skip] counts
    the bytes of an occurrence just replaced that are still to be passed
    over. *)
Fixpoint replace_from (old new : string) (skip : nat) (s : string) : string :=
  match s with
  | EmptyString => EmptyString
  | String c rest =>
      match skip with
      | S k => replace_from old new k rest
      | O =>
          if String.prefix old s then
            new +:+ replace_from old new (Nat.pred (String.length old)) rest
          else String c (replace_from old new 0 rest)
      end
  end.

(** With an empty [old], [new] is inserted in front of the string and
    after every character (here: every byte, which is what Go does on
    ASCII text; the store never passes an empty [old]). *)
Fixpoint insert_after_each (new : string) (s : string) : string :=
  match s with
  | EmptyString => EmptyString
  | String c rest => String c (new +:+ insert_after_each new rest)
  end.

(** [strings.ReplaceAll(s, old, new)] *)
Definition ReplaceAll (s old new : string) : string :=
  match old with
  | EmptyString => new +:+ insert_after_each new s
  | String _ _ => replace_from old new 0 s
  end.

End GoStrings.

(** [quoteTable]: the table name between double quotes, each double quote
    inside it doubled. *)
Definition quoteTable (s : Store) : string :=
  let q := String GoStrings.dquote EmptyString in
  q +:+ GoStrings.ReplaceAll (table s) q (q +:+ q) +:+ q.

(** How the storage engine reads a quoted identifier: after the opening
    double quote, two double quotes in a row stand for one, and a single
    one closes the identifier, which must end there. *)
Fixpoint unquote_body (s : string) : option string :=
  match s with
  | EmptyString => None
  | String c rest =>
      if Ascii.eqb c GoStrings.dquote then
        match rest with
        | EmptyString => Some EmptyString
        | String c' rest' =>
            if Ascii.eqb c' GoStrings.dquote then
              option_map (String GoStrings.dquote) (unquote_body rest')
            else None
        end
      else option_map (String c) (unquote_body rest)
  end.

Definition unquote (s : string) : option string :=
  match s with
  | EmptyString => None
  | String c rest =>
      if Ascii.eqb c GoStrings.dquote then unquote_body rest else None
  end.

(** ** Reading a translated pattern back *)

(** The glob a [LIKE] pattern with escape character [\] stands for: an
    escaped character is that character, [%] is [*], [_] is [?]. *)
Fixpoint untranslate (like : string) : string :=
  match like with
  | EmptyString => EmptyString
  | String c rest =>
      if Ascii.eqb c "\" then
        match rest with
        | EmptyString => String c EmptyString
        | String x rest' => String x (untranslate rest')
        end
      else if Ascii.eqb c "%" then String "*" (untranslate rest)
      else if Ascii.eqb c "_" then String "?" (untranslate rest)
      else String c (untranslate rest)
  end.

(** The pattern holds no backslash. *)
Fixpoint no_backslash (glob : string) : bool :=
  match glob with
  | EmptyString => true
  | String c rest => negb (Ascii.eqb c "\") && no_backslash rest
  end.

(** What a call returned, if it returned. *)
Definition result_of {A} (o : outcome A) : option A :=
  match o with
  | Returns _ r => Some r
  | Panics => None
  end.

(** A store on [three_rows] whose cleanup goroutine is in its loop. *)
Definition sweeping_store : Store :=
  mkStore (Some (mkDB three_rows false)) "kv" (Some false)
    [mkSweeper Second SwLooping] [] [] [].

(** The keys of the rows of a result set that could be decoded. *)
Definition row_keys (rows : list RowScan) : list string :=
  flat_map (fun r => match r with
                     | RowScanned key _ _ => [key]
                     | RowScanFault _ => []
                     end) rows.

(** ** The comparison helper of the tests *)

(** [sliceEqual]: the lengths are compared first, then the elements
    index by index. *)
Definition sliceEqual (a b : list string) : bool :=
  if negb (Nat.eqb (length a) (length b)) then false
  else forallb (fun i => String.eqb (nth i a "") (nth i b "")) (seq 0 (length a)).

(** * Properties *)

(** ** Pattern translator *)

Lemma append_assoc (u v w : string) : (u +:+ v) +:+ w = u +:+ (v +:+ w).
Proof.
  induction u as [|x u IH]; [reflexivity|].
  change (String x ((u +:+ v) +:+ w) = String x (u +:+ (v +:+ w))).
  now rewrite IH.
Qed.

Lemma Replace_app r a b :
  Replacer.Replace r (a +:+ b) = Replacer.Replace r a +:+ Replacer.Replace r b.
Proof.
  induction a as [|c a IH]; [reflexivity|].
  change (String c a +:+ b) with (String c (a +:+ b)).
  simpl. destruct (r c) as [n|]; rewrite IH.
  - now rewrite append_assoc.
  - reflexivity.
Qed.

Lemma replacer_translate_char c :
  Replacer.Replace
    (Replacer.NewReplacer
       [("%"%char, "\%"); ("_"%char, "\_"); ("*"%char, "%"); ("?"%char, "_")])
    (String c EmptyString) = translate_char c.
Proof.
  unfold translate_char. simpl.
  repeat (destruct (Ascii.eqb c _); [reflexivity|]). reflexivity.
Qed.

Example globToSQLLike_user : globToSQLLike "user:*" = "user:%".
Proof. reflexivity. Qed.

Example globToSQLLike_percent : globToSQLLike "50%off_?" = "50\%off\__".
Proof. reflexivity. Qed.

(** C4: the translator is total and rewrites its input character by
    character: [%] becomes [\%], [_] becomes [\_], [*] becomes [%], [?]
    becomes [_], any other character is kept; what a character was replaced
    by is not rewritten again, so the translation of a concatenation is the
    concatenation of the translations. *)
Theorem globToSQLLike_char_by_char :
  forall glob : string,
    globToSQLLike glob = translate glob /\
    (forall c rest,
        globToSQLLike (String c rest) = translate_char c +:+ globToSQLLike rest) /\
    (forall a b, globToSQLLike (a +:+ b) = globToSQLLike a +:+ globToSQLLike b) /\
    globToSQLLike "%" = "\%" /\ globToSQLLike "_" = "\_" /\
    globToSQLLike "*" = "%" /\ globToSQLLike "?" = "_".
Proof.
  assert (Hcons : forall c rest,
             globToSQLLike (String c rest) = translate_char c +:+ globToSQLLike rest).
  { intros c rest. unfold globToSQLLike.
    change (String c rest) with (String c EmptyString +:+ rest).
    now rewrite Replace_app, replacer_translate_char. }
  intros glob. repeat split; try reflexivity.
  - induction glob as [|c rest IH]; [reflexivity|].
    rewrite Hcons, IH. reflexivity.
  - exact Hcons.
  - intros a b. apply Replace_app.
Qed.

(** ** Reads of one key *)

Lemma call_fault_open d env : db_closed d = false -> call_fault d env = env.
Proof. unfold call_fault. now intros ->. Qed.

Lemma db_QueryRow_found d key r :
  db_closed d = false -> rel d !! key = Some r ->
  db_QueryRow d None key = RowFound r.
Proof. intros Hc Hr. unfold db_QueryRow. now rewrite call_fault_open, Hr. Qed.

Lemma time_Unix_exact sec :
  sec <= lastUnixSecond -> time_Unix sec = sec * Second.
Proof.
  unfold time_Unix, lastUnixSecond, maxInt64, unixToInternal. intros H.
  destruct (Z.ltb_spec (2 ^ 63 - 1) (sec + 62135596800)) as [Hlt|Hge]; [lia|].
  f_equal. lia.
Qed.

Lemma time_Unix_wrapped sec :
  lastUnixSecond < sec -> time_Unix sec = (sec - 2 ^ 64) * Second.
Proof.
  unfold time_Unix, lastUnixSecond, maxInt64, unixToInternal. intros H.
  destruct (Z.ltb_spec (2 ^ 63 - 1) (sec + 62135596800)) as [Hlt|Hge]; [|lia].
  f_equal. lia.
Qed.

Lemma time_Unix_le sec : time_Unix sec <= sec * Second.
Proof.
  destruct (Z.le_gt_cases sec lastUnixSecond) as [H|H].
  - rewrite time_Unix_exact by exact H. lia.
  - rewrite time_Unix_wrapped by lia. unfold Second. lia.
Qed.



Lemma Unix_lt_before e now : e < Unix now -> time_Unix e < now.
Proof.
  intros H. pose proof (time_Unix_le e) as Hle.
  assert (Hn : Unix now * Second <= now).
  { unfold Unix, Second. pose proof (Z.mul_div_le now 1000000000). lia. }
  unfold Second in *. nia.
Qed.

Lemma Exists_expiry s d key r e now :
  db s = Some d -> db_closed d = false -> rel d !! key = Some r ->
  expires_at r = Some e ->
  Store_Exists s None key now =
    if e <? Unix now then Returns (go_Del s key) (false, None)
    else Returns s (true, None).
Proof.
  intros Hd Hc Hr He. unfold Store_Exists.
  rewrite Hd, (db_QueryRow_found _ _ _ Hc Hr), He, Z.gtb_ltb. reflexivity.
Qed.

Lemma Get_expiry s d key r v e now :
  db s = Some d -> db_closed d = false -> rel d !! key = Some r ->
  value r = Some v -> type r = "string" -> expires_at r = Some e ->
  Store_Get s None key now =
    if e <? Unix now then Returns (go_Del s key) ("", Some ErrKeyNotFound)
    else Returns s (v, None).
Proof.
  intros Hd Hc Hr Hv Ht He. unfold Store_Get.
  rewrite Hd, (db_QueryRow_found _ _ _ Hc Hr), Hv, Ht, He, Z.gtb_ltb. reflexivity.
Qed.

Lemma TTL_expiry s d key r e now :
  db s = Some d -> db_closed d = false -> rel d !! key = Some r ->
  type r = "string" -> expires_at r = Some e ->
  Store_TTL s None key now =
    if time_Unix e <? now then Returns (go_Del s key) (0, Some ErrKeyNotFound)
    else Returns s (Sub (time_Unix e) now, None).
Proof.
  intros Hd Hc Hr Ht He. unfold Store_TTL, Before.
  rewrite Hd, (db_QueryRow_found _ _ _ Hc Hr), Ht, He. reflexivity.
Qed.

(** Within the second of the expiration timestamp but after its first
    instant, [TTL] already reports the key as gone and spawns its deletion
    while [Get] and [Exists] still serve it. *)
Lemma TTL_expires_within_the_second s d key r v e now :
  db s = Some d -> db_closed d = false -> rel d !! key = Some r ->
  value r = Some v -> type r = "string" -> expires_at r = Some e ->
  time_Unix e < now -> Unix now = e ->
  Store_Get s None key now = Returns s (v, None) /\
  Store_Exists s None key now = Returns s (true, None) /\
  Store_TTL s None key now = Returns (go_Del s key) (0, Some ErrKeyNotFound).
Proof.
  intros Hd Hc Hr Hv Ht He Hlt Hu.
  rewrite (Get_expiry _ _ _ _ _ _ _ Hd Hc Hr Hv Ht He),
    (Exists_expiry _ _ _ _ _ _ Hd Hc Hr He),
    (TTL_expiry _ _ _ _ _ _ Hd Hc Hr Ht He), Hu, Z.ltb_irrefl.
  apply Z.ltb_lt in Hlt. now rewrite Hlt.
Qed.




(** C2, as stated, fails: a present row whose type is not ["string"] and
    whose expiration timestamp is strictly in the past makes [Get] and
    [TTL] fail with [ErrWrongType], not with [ErrKeyNotFound]. *)
Lemma WrongType_on_expired_row :
  let s := store_of {[ "k" := mkRow (Some "v") "list" (Some 100) ]} in
  let now := 200 * Second in
  100 < Unix now /\ time_Unix 100 < now /\
  Store_Get s None "k" now = Returns s ("", Some ErrWrongType) /\
  Store_TTL s None "k" now = Returns s (0, Some ErrWrongType) /\
  Store_Get s None "k" now <> Returns (go_Del s "k") ("", Some ErrKeyNotFound) /\
  Store_TTL s None "k" now <> Returns (go_Del s "k") (0, Some ErrKeyNotFound).
Proof.
  cbv zeta. repeat split; try (vm_compute; reflexivity);
    intros H; vm_compute in H; discriminate H.
Qed.

Lemma Get_WrongType_iff s env key now s' v :
  Store_Get s env key now = Returns s' (v, Some ErrWrongType) <->
  s' = s /\ v = "" /\
  exists d r, db s = Some d /\ call_fault d env = None /\
              rel d !! key = Some r /\ is_Some (value r) /\ type r <> "string".
Proof.
  unfold Store_Get, db_QueryRow. split.
  - destruct (db s) as [d|]; [|discriminate].
    destruct (call_fault d env) eqn:Hf; [intros H; inversion H|].
    destruct (rel d !! key) as [r|] eqn:Hr; [|intros H; inversion H].
    destruct (value r) as [x|] eqn:Hv; [|intros H; inversion H].
    destruct (String.eqb_spec (type r) "string") as [Ht|Ht]; simpl.
    + destruct (expires_at r) as [e|]; [destruct (Unix now >? e)|];
        intros H; inversion H.
    + intros H; inversion H; subst. repeat split. exists d, r.
      repeat split; try assumption. now exists x.
  - intros (-> & -> & d & r & -> & -> & -> & [x ->] & Ht).
    apply String.eqb_neq in Ht. now rewrite Ht.
Qed.

Lemma TTL_WrongType_iff s env key now s' t :
  Store_TTL s env key now = Returns s' (t, Some ErrWrongType) <->
  s' = s /\ t = 0 /\
  exists d r, db s = Some d /\ call_fault d env = None /\
              rel d !! key = Some r /\ type r <> "string".
Proof.
  unfold Store_TTL, db_QueryRow. split.
  - destruct (db s) as [d|]; [|discriminate].
    destruct (call_fault d env) eqn:Hf; [intros H; inversion H|].
    destruct (rel d !! key) as [r|] eqn:Hr; [|intros H; inversion H].
    destruct (String.eqb_spec (type r) "string") as [Ht|Ht]; simpl.
    + destruct (expires_at r) as [e|]; [destruct (Before (time_Unix e) now)|];
        intros H; inversion H.
    + intros H; inversion H; subst. repeat split. now exists d, r.
  - intros (-> & -> & d & r & -> & -> & -> & Ht).
    apply String.eqb_neq in Ht. now rewrite Ht.
Qed.

(** C2 (amended): [Get] and [TTL] return [ErrWrongType] exactly for a key
    that is present with a type tag other than ["string"], whether or not
    its expiration timestamp has passed (the type check comes before the
    expiry check); for a present key of type ["string"] whose expiration
    timestamp is strictly in the past they fail with [ErrKeyNotFound];
    and a call that returns [ErrWrongType] leaves the store as it was: no
    row is deleted and no deletion is spawned. *)
Theorem WrongType_decided_by_type_alone
    (s : Store) (d : DB) (key : string) (r : Row) (now : Time) :
  db s = Some d -> db_closed d = false -> rel d !! key = Some r ->
  is_Some (value r) ->
  (type r <> "string" ->
     Store_Get s None key now = Returns s ("", Some ErrWrongType) /\
     Store_TTL s None key now = Returns s (0, Some ErrWrongType)) /\
  (type r = "string" ->
     (forall s' v, Store_Get s None key now <> Returns s' (v, Some ErrWrongType)) /\
     (forall s' t, Store_TTL s None key now <> Returns s' (t, Some ErrWrongType)) /\
     (forall e, expires_at r = Some e -> e < Unix now ->
        Store_Get s None key now = Returns (go_Del s key) ("", Some ErrKeyNotFound) /\
        Store_TTL s None key now = Returns (go_Del s key) (0, Some ErrKeyNotFound))) /\
  (forall env s' v, Store_Get s env key now = Returns s' (v, Some ErrWrongType) ->
     s' = s /\ type r <> "string") /\
  (forall env s' t, Store_TTL s env key now = Returns s' (t, Some ErrWrongType) ->
     s' = s /\ type r <> "string").
Proof.
  intros Hd Hc Hr Hv.
  assert (Hinv : forall d' r', db s = Some d' -> rel d' !! key = Some r' -> r' = r).
  { intros d' r' Hd' Hr'. congruence. }
  split; [|split; [|split]].
  - intros Ht. split.
    + apply Get_WrongType_iff. repeat split. exists d, r.
      now rewrite call_fault_open.
    + apply TTL_WrongType_iff. repeat split. exists d, r.
      now rewrite call_fault_open.
  - intros Ht. split; [|split].
    + intros s' v H. apply Get_WrongType_iff in H.
      destruct H as (_ & _ & d' & r' & Hd' & _ & Hr' & _ & Hne).
      rewrite (Hinv _ _ Hd' Hr') in Hne. contradiction.
    + intros s' t H. apply TTL_WrongType_iff in H.
      destruct H as (_ & _ & d' & r' & Hd' & _ & Hr' & Hne).
      rewrite (Hinv _ _ Hd' Hr') in Hne. contradiction.
    + intros e He Hlt. destruct Hv as [v Hv]. split.
      * rewrite (Get_expiry _ _ _ _ _ _ _ Hd Hc Hr Hv Ht He).
        apply Z.ltb_lt in Hlt. now rewrite Hlt.
      * rewrite (TTL_expiry _ _ _ _ _ _ Hd Hc Hr Ht He).
        apply Unix_lt_before, Z.ltb_lt in Hlt. now rewrite Hlt.
  - intros env s' v H. apply Get_WrongType_iff in H.
    destruct H as (-> & _ & d' & r' & Hd' & _ & Hr' & _ & Hne).
    rewrite (Hinv _ _ Hd' Hr') in Hne. now split.
  - intros env s' t H. apply TTL_WrongType_iff in H.
    destruct H as (-> & _ & d' & r' & Hd' & _ & Hr' & Hne).
    rewrite (Hinv _ _ Hd' Hr') in Hne. now split.
Qed.

Lemma WrongType_decided_by_type_alone_witness :
  let s := store_of {[ "k" := mkRow (Some "v") "list" (Some 100) ]} in
  let now := 200 * Second in
  Store_Get s None "k" now = Returns s ("", Some ErrWrongType) /\
  Store_TTL s None "k" now = Returns s (0, Some ErrWrongType).
Proof.
  cbv zeta.
  destruct (WrongType_decided_by_type_alone
              (store_of {[ "k" := mkRow (Some "v") "list" (Some 100) ]})
              (mkDB {[ "k" := mkRow (Some "v") "list" (Some 100) ]} false)
              "k" (mkRow (Some "v") "list" (Some 100)) (200 * Second))
    as [H _]; [reflexivity | reflexivity | vm_compute; reflexivity
              | exists "v"; reflexivity |].
  apply H. simpl. discriminate.
Defined.

(** ** The scan loop of Keys *)

Lemma isExpired_gtb e now :
  isExpired (Some e) now <-> (now >? e) = true.
Proof.
  rewrite Z.gtb_ltb, Z.ltb_lt. split.
  - intros (x & [= <-] & H). exact H.
  - intros H. now exists e.
Qed.

Lemma not_isExpired_None now : ~ isExpired None now.
Proof. intros (x & [=] & _). Qed.

Lemma scan_row_keys clock st r k :
  In k (keys (scan_row clock st r)) <->
  In k (keys st) \/
  exists e, r = RowScanned k "string" e /\ ~ isExpired e (Unix (clock k)).
Proof.
  destruct r as [key ty exp|f]; simpl.
  2: { split; [now left|]. intros [H|(e & [=] & _)]. exact H. }
  destruct (String.eqb_spec ty "string") as [->|Hty]; simpl.
  2: { split; [now left|]. intros [H|(e & [= -> Hs _] & _)]; [exact H|].
       now contradict Hty. }
  destruct exp as [e|].
  - destruct (Unix (clock key) >? e) eqn:Hgt; simpl.
    + split; [now left|]. intros [H|(e' & [= -> <-] & Hne)]; [exact H|].
      contradict Hne. now apply isExpired_gtb.
    + rewrite in_app_iff. simpl. split.
      * intros [H|[->|[]]]; [now left|right]. exists (Some e). split; [reflexivity|].
        rewrite isExpired_gtb, Hgt. discriminate.
      * intros [H|(e' & [= -> <-] & _)]; [now left|right; now left].
  - simpl. rewrite in_app_iff. simpl. split.
    + intros [H|[->|[]]]; [now left|right]. exists None. split; [reflexivity|].
      apply not_isExpired_None.
    + intros [H|(e' & [= -> <-] & _)]; [now left|right; now left].
Qed.

Lemma scan_row_keysToDelete clock st r k :
  In k (keysToDelete (scan_row clock st r)) <->
  In k (keysToDelete st) \/
  exists e, r = RowScanned k "string" e /\ isExpired e (Unix (clock k)).
Proof.
  destruct r as [key ty exp|f]; simpl.
  2: { split; [now left|]. intros [H|(e & [=] & _)]. exact H. }
  destruct (String.eqb_spec ty "string") as [->|Hty]; simpl.
  2: { split; [now left|]. intros [H|(e & [= -> Hs _] & _)]; [exact H|].
       now contradict Hty. }
  destruct exp as [e|].
  - destruct (Unix (clock key) >? e) eqn:Hgt; simpl.
    + rewrite in_app_iff. simpl. split.
      * intros [H|[->|[]]]; [now left|right]. exists (Some e). split; [reflexivity|].
        now apply isExpired_gtb.
      * intros [H|(e' & [= -> <-] & _)]; [now left|right; now left].
    + split; [now left|]. intros [H|(e' & [= -> <-] & He)]; [exact H|].
      apply isExpired_gtb in He. congruence.
  - simpl. split; [now left|]. intros [H|(e' & [= -> <-] & He)]; [exact H|].
    now apply not_isExpired_None in He.
Qed.

Lemma scan_row_trace clock st r :
  loop_trace (scan_row clock st r) = loop_trace st ++ [EvScan r].
Proof.
  destruct r as [key ty exp|f]; simpl; [|reflexivity].
  destruct (negb (String.eqb ty "string")); [reflexivity|].
  destruct exp as [e|]; [destruct (Unix (clock key) >? e)|]; reflexivity.
Qed.

(** The loop touches nothing of the store but its standard error. *)
Lemma scan_row_store clock st r :
  let s := loop_store st in
  let s' := loop_store (scan_row clock st r) in
  db s' = db s /\ table s' = table s /\ ctx s' = ctx s /\
  sweepers s' = sweepers s /\ detached s' = detached s /\ stdout s' = stdout s /\
  stderr s' = stderr s ++
    match r with
    | RowScanFault f => [MsgScanError (table s) f]
    | RowScanned _ _ _ => []
    end.
Proof.
  destruct r as [key ty exp|f]; simpl; [|tauto].
  rewrite app_nil_r.
  destruct (negb (String.eqb ty "string")); [tauto|].
  destruct exp as [e|]; [destruct (Unix (clock key) >? e)|]; tauto.
Qed.

Lemma scan_rows_keys clock rows st k :
  In k (keys (fold_left (scan_row clock) rows st)) <->
  In k (keys st) \/
  exists e, In (RowScanned k "string" e) rows /\ ~ isExpired e (Unix (clock k)).
Proof.
  revert st. induction rows as [|r rows IH]; intros st; simpl.
  - split; [now left|]. intros [H|(e & [] & _)]. exact H.
  - rewrite IH, scan_row_keys. split.
    + intros [[H|(e & -> & He)]|(e & Hin & He)]; [now left|right..].
      * exists e. split; [now left|exact He].
      * exists e. split; [now right|exact He].
    + intros [H|(e & [->|Hin] & He)]; [now left; left| |].
      * left; right. now exists e.
      * right. now exists e.
Qed.

Lemma scan_rows_keysToDelete clock rows st k :
  In k (keysToDelete (fold_left (scan_row clock) rows st)) <->
  In k (keysToDelete st) \/
  exists e, In (RowScanned k "string" e) rows /\ isExpired e (Unix (clock k)).
Proof.
  revert st. induction rows as [|r rows IH]; intros st; simpl.
  - split; [now left|]. intros [H|(e & [] & _)]. exact H.
  - rewrite IH, scan_row_keysToDelete. split.
    + intros [[H|(e & -> & He)]|(e & Hin & He)]; [now left|right..].
      * exists e. split; [now left|exact He].
      * exists e. split; [now right|exact He].
    + intros [H|(e & [->|Hin] & He)]; [now left; left| |].
      * left; right. now exists e.
      * right. now exists e.
Qed.

Lemma scan_rows_trace clock rows st :
  loop_trace (fold_left (scan_row clock) rows st) = loop_trace st ++ map EvScan rows.
Proof.
  revert st. induction rows as [|r rows IH]; intros st; simpl.
  - now rewrite app_nil_r.
  - now rewrite IH, scan_row_trace, <- app_assoc.
Qed.

Lemma scan_rows_store clock rows st :
  let s := loop_store st in
  let s' := loop_store (fold_left (scan_row clock) rows st) in
  db s' = db s /\ table s' = table s /\ ctx s' = ctx s /\
  sweepers s' = sweepers s /\ detached s' = detached s /\ stdout s' = stdout s /\
  forall m, In m (stderr s') <->
            In m (stderr s) \/
            exists f, In (RowScanFault f) rows /\ m = MsgScanError (table s) f.
Proof.
  revert st. induction rows as [|r rows IH]; intros st; simpl.
  - repeat split; try tauto. intros [H|(f & [] & _)]. exact H.
  - destruct (IH (scan_row clock st r)) as (H1 & H2 & H3 & H4 & H5 & H6 & H7).
    destruct (scan_row_store clock st r) as (G1 & G2 & G3 & G4 & G5 & G6 & G7).
    simpl in *.
    rewrite H1, H2, H3, H4, H5, H6, G1, G2, G3, G4, G5, G6.
    repeat split; try reflexivity.
    + rewrite H7, G7, G2, in_app_iff.
      intros [[H|H]|(f & Hin & ->)]; [now left| |].
      * destruct r as [| f]; [destruct H|]. destruct H as [<-|[]].
        right. exists f. split; [now left|reflexivity].
      * right. exists f. split; [now right|reflexivity].
    + rewrite H7, G7, G2, in_app_iff.
      intros [H|(f & [->|Hin] & ->)]; [now left; left| |].
      * left; right. now left.
      * right. now exists f.
Qed.

Lemma spawn_deletes dels s tr :
  fold_left spawn_delete dels (s, tr) =
  (with_detached s (detached s ++ dels), tr ++ map EvGo dels).
Proof.
  revert s tr. induction dels as [|k dels IH]; intros s tr; simpl.
  - rewrite !app_nil_r. now destruct s.
  - unfold spawn_delete at 2. simpl. rewrite IH. unfold go_Del, with_detached. simpl.
    now rewrite <- !app_assoc.
Qed.

(** [Keys] on a result set whose iteration ended without error. *)
Lemma Keys_on_rows s clock pattern sqlPattern rows :
  exists s1 ks dels,
    Keys_on s clock pattern sqlPattern (QueryRows rows None) =
      (Returns (with_detached s1 (detached s ++ dels)) (ks, None),
       [EvQuery sqlPattern] ++ map EvScan rows ++ [EvRowsEnd] ++ map EvGo dels) /\
    db s1 = db s /\ table s1 = table s /\ ctx s1 = ctx s /\
    sweepers s1 = sweepers s /\ stdout s1 = stdout s /\
    (forall m, In m (stderr s1) <->
               In m (stderr s) \/
               exists f, In (RowScanFault f) rows /\ m = MsgScanError (table s) f) /\
    (forall k, In k ks <->
               exists e, In (RowScanned k "string" e) rows /\
                         ~ isExpired e (Unix (clock k))) /\
    (forall k, In k dels <->
               exists e, In (RowScanned k "string" e) rows /\
                         isExpired e (Unix (clock k))).
Proof.
  set (st0 := mkScanLoop [] [] s [EvQuery sqlPattern]).
  set (st := fold_left (scan_row clock) rows st0).
  exists (loop_store st), (keys st), (keysToDelete st).
  destruct (scan_rows_store clock rows st0) as (H1 & H2 & H3 & H4 & H5 & H6 & H7).
  fold st in H1, H2, H3, H4, H5, H6, H7. simpl in *.
  refine (conj _ (conj H1 (conj H2 (conj H3 (conj H4 (conj H6 (conj H7 (conj _ _)))))))).
  - unfold Keys_on. fold st0. fold st.
    rewrite spawn_deletes, H5.
    assert (Htr : loop_trace st = [EvQuery sqlPattern] ++ map EvScan rows)
      by (unfold st; now rewrite scan_rows_trace).
    rewrite Htr. simpl. now rewrite <- !app_assoc.
  - intros k. unfold st. rewrite scan_rows_keys. simpl. tauto.
  - intros k. unfold st. rewrite scan_rows_keysToDelete. simpl. tauto.
Qed.

(** Whatever the query yields, no deletion is spawned before the
    iteration has ended. *)
Lemma Keys_on_trace s clock pattern sqlPattern q :
  exists rows dels,
    (Keys_on s clock pattern sqlPattern q).2 = [EvQuery sqlPattern] \/
    (Keys_on s clock pattern sqlPattern q).2 =
      [EvQuery sqlPattern] ++ map EvScan rows ++ [EvRowsEnd] ++ map EvGo dels.
Proof.
  destruct q as [f|rows [f|]].
  - exists [], []. now left.
  - exists rows, []. right. unfold Keys_on. simpl snd.
    rewrite scan_rows_trace. simpl. now rewrite <- ?app_assoc.
  - destruct (Keys_on_rows s clock pattern sqlPattern rows)
      as (s1 & ks & dels & Hrun & _).
    exists rows, dels. right. now rewrite Hrun.
Qed.

Lemma scan_rows_no_fault clock rows st :
  (forall f, ~ In (RowScanFault f) rows) ->
  loop_store (fold_left (scan_row clock) rows st) = loop_store st.
Proof.
  revert st. induction rows as [|r rows IH]; intros st Hnf; simpl; [reflexivity|].
  rewrite IH by (intros f Hin; apply (Hnf f); now right).
  destruct r as [key ty exp|f]; simpl.
  - destruct (negb (String.eqb ty "string")); [reflexivity|].
    destruct exp as [e|]; [destruct (Unix (clock key) >? e)|]; reflexivity.
  - exfalso. apply (Hnf f). now left.
Qed.

Lemma In_matched (sql_like : string -> string -> bool) d sqlPattern key r :
  In (key, r) (filter (fun kr => sql_like sqlPattern kr.1 = true) (map_to_list (rel d)))
  <-> rel d !! key = Some r /\ sql_like sqlPattern key = true.
Proof.
  rewrite <- list_elem_of_In, list_elem_of_filter, elem_of_map_to_list. simpl. tauto.
Qed.

Lemma db_Query_healthy (sql_like : string -> string -> bool) d sqlPattern :
  db_closed d = false ->
  exists rows,
    db_Query sql_like d no_faults sqlPattern = QueryRows rows None /\
    (forall f, ~ In (RowScanFault f) rows) /\
    (forall key ty e,
        In (RowScanned key ty e) rows <->
        exists r, rel d !! key = Some r /\ sql_like sqlPattern key = true /\
                  ty = type r /\ e = expires_at r).
Proof.
  intros Hc. unfold db_Query. rewrite call_fault_open by exact Hc. simpl.
  eexists. split; [reflexivity|]. split.
  - intros f Hin. apply in_map_iff in Hin. destruct Hin as ([k r] & Heq & _).
    discriminate Heq.
  - intros key ty e. rewrite in_map_iff. split.
    + intros ([k r] & Heq & Hin). unfold scan_of in Heq. simpl in Heq.
      injection Heq as <- <- <-. apply In_matched in Hin. exists r. tauto.
    + intros (r & Hr & Hl & -> & ->). exists (key, r). split; [reflexivity|].
      now apply In_matched.
Qed.

(** C5: in a [Keys] call that meets no failure, a matched row whose type is
    not ["string"] is neither returned nor queued for deletion, a matched
    row of type ["string"] that is expired when it is examined is not
    returned and is queued for a detached deletion, any other matched row
    has its key returned, nothing else is returned or queued, the relation
    is left as it was, and every detached deletion is spawned after the
    iteration over the result set has ended. *)
Theorem Keys_classifies_matched_rows
    (sql_like : string -> string -> bool) (s : Store) (d : DB)
    (clock : string -> Time) (pattern : string) :
  db s = Some d -> db_closed d = false ->
  exists ks dels rows,
    Store_Keys_run sql_like s no_faults clock pattern =
      (Returns (with_detached s (detached s ++ dels)) (ks, None),
       [EvQuery (globToSQLLike pattern)] ++ map EvScan rows ++ [EvRowsEnd]
         ++ map EvGo dels) /\
    (forall key r,
        rel d !! key = Some r -> sql_like (globToSQLLike pattern) key = true ->
        In (RowScanned key (type r) (expires_at r)) rows /\
        (type r <> "string" -> ~ In key ks /\ ~ In key dels) /\
        (type r = "string" -> isExpired (expires_at r) (Unix (clock key)) ->
           ~ In key ks /\ In key dels) /\
        (type r = "string" -> ~ isExpired (expires_at r) (Unix (clock key)) ->
           In key ks /\ ~ In key dels)) /\
    (forall key, In key ks \/ In key dels ->
        exists r, rel d !! key = Some r /\
                  sql_like (globToSQLLike pattern) key = true) /\
    (forall env, exists rows' dels',
        (Store_Keys_run sql_like s env clock pattern).2 =
          [EvQuery (globToSQLLike pattern)] \/
        (Store_Keys_run sql_like s env clock pattern).2 =
          [EvQuery (globToSQLLike pattern)] ++ map EvScan rows' ++ [EvRowsEnd]
            ++ map EvGo dels').
Proof.
  intros Hd Hc.
  destruct (db_Query_healthy sql_like d (globToSQLLike pattern) Hc)
    as (rows & Hq & Hnf & Hrows).
  set (st := fold_left (scan_row clock) rows
               (mkScanLoop [] [] s [EvQuery (globToSQLLike pattern)])).
  assert (Hks : forall k, In k (keys st) <->
                  exists e, In (RowScanned k "string" e) rows /\
                            ~ isExpired e (Unix (clock k))).
  { intros k. unfold st. rewrite scan_rows_keys. simpl. tauto. }
  assert (Hdels : forall k, In k (keysToDelete st) <->
                  exists e, In (RowScanned k "string" e) rows /\
                            isExpired e (Unix (clock k))).
  { intros k. unfold st. rewrite scan_rows_keysToDelete. simpl. tauto. }
  assert (Hstore : loop_store st = s)
    by (unfold st; now rewrite scan_rows_no_fault).
  assert (Htr : loop_trace st = [EvQuery (globToSQLLike pattern)] ++ map EvScan rows)
    by (unfold st; now rewrite scan_rows_trace).
  exists (keys st), (keysToDelete st), rows. split; [|split; [|split]].
  4: { intros env. unfold Store_Keys_run. rewrite Hd.
       exact (Keys_on_trace s clock pattern (globToSQLLike pattern) _). }
  - unfold Store_Keys_run. rewrite Hd, Hq. unfold Keys_on. fold st.
    rewrite spawn_deletes, Hstore, Htr. simpl. now rewrite <- !app_assoc.
  - intros key r Hr Hl.
    assert (Hin : In (RowScanned key (type r) (expires_at r)) rows)
      by (apply Hrows; now exists r).
    assert (Huniq : forall ty e, In (RowScanned key ty e) rows ->
                                 ty = type r /\ e = expires_at r).
    { intros ty e H. apply Hrows in H. destruct H as (r' & Hr' & _ & -> & ->).
      rewrite Hr in Hr'. now injection Hr' as ->. }
    split; [exact Hin|]. split; [|split].
    + intros Hty. split.
      * intros H. apply Hks in H. destruct H as (e & H & _).
        apply Huniq in H. destruct H as [H _]. now apply Hty.
      * intros H. apply Hdels in H. destruct H as (e & H & _).
        apply Huniq in H. destruct H as [H _]. now apply Hty.
    + intros Hty Hexp. split.
      * intros H. apply Hks in H. destruct H as (e & H & Hne).
        apply Huniq in H. destruct H as [_ ->]. now apply Hne.
      * apply Hdels. exists (expires_at r). rewrite <- Hty. now split.
    + intros Hty Hlive. split.
      * apply Hks. exists (expires_at r). rewrite <- Hty. now split.
      * intros H. apply Hdels in H. destruct H as (e & H & He).
        apply Huniq in H. destruct H as [_ ->]. now apply Hlive.
  - intros key [H|H].
    + apply Hks in H. destruct H as (e & H & _). apply Hrows in H.
      destruct H as (r & Hr & Hl & _). now exists r.
    + apply Hdels in H. destruct H as (e & H & _). apply Hrows in H.
      destruct H as (r & Hr & Hl & _). now exists r.
Qed.

Lemma Keys_classifies_matched_rows_witness :
  let s := store_of three_rows in
  let clock := fun _ : string => 200 * Second in
  exists ks dels rows,
    Store_Keys_run like_any s no_faults clock "*" =
      (Returns (with_detached s (detached s ++ dels)) (ks, None),
       [EvQuery (globToSQLLike "*")] ++ map EvScan rows ++ [EvRowsEnd]
         ++ map EvGo dels) /\
    (forall key r,
        three_rows !! key = Some r -> like_any (globToSQLLike "*") key = true ->
        In (RowScanned key (type r) (expires_at r)) rows /\
        (type r <> "string" -> ~ In key ks /\ ~ In key dels) /\
        (type r = "string" -> isExpired (expires_at r) (Unix (clock key)) ->
           ~ In key ks /\ In key dels) /\
        (type r = "string" -> ~ isExpired (expires_at r) (Unix (clock key)) ->
           In key ks /\ ~ In key dels)).
Proof.
  cbv zeta.
  destruct (Keys_classifies_matched_rows like_any (store_of three_rows)
              (mkDB three_rows false) (fun _ => 200 * Second) "*")
    as (ks & dels & rows & Hrun & Hrows & _); [reflexivity | reflexivity |].
  exists ks, dels, rows. split; [exact Hrun | exact Hrows].
Defined.

Example Keys_three_rows :
  Store_Keys_run like_any (store_of three_rows) no_faults
    (fun _ => 200 * Second) "*" =
  (Returns (go_Del (store_of three_rows) "b") (["a"], None),
   [EvQuery "%"; EvScan (RowScanned "c" "list" None);
    EvScan (RowScanned "a" "string" None);
    EvScan (RowScanned "b" "string" (Some 100)); EvRowsEnd; EvGo "b"]).
Proof. vm_compute. reflexivity. Qed.

(** ** Failures of the collaborator *)

(** C3, as stated, fails: a row-level failure while [Keys] scans the
    matched rows is logged and the row skipped; [Keys] returns the other
    keys and no error. *)
Lemma Keys_skips_failed_row :
  let s := store_of three_rows in
  scan_fault fault_on_a "a" = Some (FaultOther "scan") /\
  three_rows !! "a" = Some (mkRow (Some "1") "string" None) /\
  Store_Keys like_any s fault_on_a (fun _ => 50 * Second) "*" =
    Returns (eprint s (MsgScanError "kv" (FaultOther "scan"))) (["b"], None).
Proof. cbv zeta. repeat split; vm_compute; reflexivity. Qed.

Lemma single_key_faults s d env f key value ttl now :
  db s = Some d -> call_fault d env = Some f ->
  Store_Set s env key value ttl now =
    Returns s (Some (Errorf (CtxSet key (table s)) f)) /\
  Store_Get s env key now =
    Returns s ("", Some (Errorf (CtxGet key (table s)) f)) /\
  Store_Del s env key =
    Returns s (Some (Errorf (CtxDel key (table s)) f)) /\
  Store_Exists s env key now =
    Returns s (false, Some (Errorf (CtxExists key (table s)) f)) /\
  Store_TTL s env key now =
    Returns s (0, Some (Errorf (CtxTTL key (table s)) f)).
Proof.
  intros Hd Hf.
  unfold Store_Set, Store_Get, Store_Del, Store_Exists, Store_TTL,
    db_upsert, db_delete, db_QueryRow.
  rewrite Hd, Hf. repeat split; reflexivity.
Qed.

Lemma In_scan_of_scanned env (l : list (string * Row)) key ty e :
  In (RowScanned key ty e) (map (scan_of env) l) ->
  scan_fault env key = None.
Proof.
  intros Hin. apply in_map_iff in Hin. destruct Hin as ([k r] & Heq & _).
  unfold scan_of in Heq. simpl in Heq.
  destruct (scan_fault env k) eqn:Hk; [discriminate|].
  now injection Heq as <- _ _.
Qed.

Lemma In_scan_of_rows env (l : list (string * Row)) :
  (forall key ty e,
      In (RowScanned key ty e) (map (scan_of env) l) <->
      exists r, In (key, r) l /\ scan_fault env key = None /\
                ty = type r /\ e = expires_at r) /\
  (forall f,
      In (RowScanFault f) (map (scan_of env) l) <->
      exists key r, In (key, r) l /\ scan_fault env key = Some f).
Proof.
  split.
  - intros key ty e. rewrite in_map_iff. split.
    + intros ([k r] & Heq & Hin). unfold scan_of in Heq. simpl in Heq.
      destruct (scan_fault env k) eqn:Hk; [discriminate|].
      injection Heq as <- <- <-. now exists r.
    + intros (r & Hin & Hsf & -> & ->). exists (key, r). split; [|exact Hin].
      unfold scan_of. simpl. now rewrite Hsf.
  - intros f. rewrite in_map_iff. split.
    + intros ([k r] & Heq & Hin). unfold scan_of in Heq. simpl in Heq.
      destruct (scan_fault env k) eqn:Hk; [|discriminate].
      injection Heq as <-. now exists k, r.
    + intros (key & r & Hin & Hsf). exists (key, r). split; [|exact Hin].
      unfold scan_of. simpl. now rewrite Hsf.
Qed.

Lemma Get_null_value s d env key r now :
  db s = Some d -> call_fault d env = None -> rel d !! key = Some r ->
  value r = None ->
  Store_Get s env key now =
    Returns s ("", Some (Errorf (CtxGet key (table s)) FaultNullValue)).
Proof.
  intros Hd Hf Hr Hv. unfold Store_Get, db_QueryRow.
  now rewrite Hd, Hf, Hr, Hv.
Qed.

(** C3 (amended): a failure of the collaborator during [Set], [Get],
    [Del], [Exists] or [TTL] (for [Get] also the failure to decode a NULL
    value), a failure of the query of [Keys] and a failure reported when
    the iteration of [Keys] ends are returned to the caller wrapped with
    the operation's context, the store being left as it was (apart from
    what [Keys] logged); a failure to decode one matched row during [Keys]
    is written to standard error and that row is left out: [Keys] returns
    no error and exactly the keys of the matched rows that could be
    decoded, have type ["string"] and are not expired, queues exactly the
    expired ones among them for deletion, and logs one line per row that
    could not be decoded. *)
Theorem storage_faults_reach_the_caller
    (sql_like : string -> string -> bool) (s : Store) (d : DB) (f : Fault) :
  db s = Some d ->
  (forall env key value ttl now, call_fault d env = Some f ->
     Store_Set s env key value ttl now =
       Returns s (Some (Errorf (CtxSet key (table s)) f)) /\
     Store_Get s env key now =
       Returns s ("", Some (Errorf (CtxGet key (table s)) f)) /\
     Store_Del s env key =
       Returns s (Some (Errorf (CtxDel key (table s)) f)) /\
     Store_Exists s env key now =
       Returns s (false, Some (Errorf (CtxExists key (table s)) f)) /\
     Store_TTL s env key now =
       Returns s (0, Some (Errorf (CtxTTL key (table s)) f))) /\
  (forall env key r now,
     call_fault d env = None -> rel d !! key = Some r -> value r = None ->
     Store_Get s env key now =
       Returns s ("", Some (Errorf (CtxGet key (table s)) FaultNullValue))) /\
  (forall env clock pattern, call_fault d (query_fault env) = Some f ->
     Store_Keys sql_like s env clock pattern =
       Returns s ([], Some (Errorf (CtxKeysQuery pattern (globToSQLLike pattern)
                                      (table s)) f))) /\
  (forall env clock pattern n,
     call_fault d (query_fault env) = None -> next_fault env = Some (n, f) ->
     exists s',
       Store_Keys sql_like s env clock pattern =
         Returns s' ([], Some (Errorf (CtxKeysRows (table s)) f)) /\
       db s' = db s /\ detached s' = detached s) /\
  (forall env clock pattern,
     call_fault d (query_fault env) = None -> next_fault env = None ->
     exists s' ks dels,
       Store_Keys sql_like s env clock pattern = Returns s' (ks, None) /\
       (forall key,
           In key ks <->
           exists r, rel d !! key = Some r /\
                     sql_like (globToSQLLike pattern) key = true /\
                     scan_fault env key = None /\ type r = "string" /\
                     ~ isExpired (expires_at r) (Unix (clock key))) /\
       detached s' = detached s ++ dels /\
       (forall key,
           In key dels <->
           exists r, rel d !! key = Some r /\
                     sql_like (globToSQLLike pattern) key = true /\
                     scan_fault env key = None /\ type r = "string" /\
                     isExpired (expires_at r) (Unix (clock key))) /\
       (forall m,
           In m (stderr s') <->
           In m (stderr s) \/
           exists key r f',
             rel d !! key = Some r /\
             sql_like (globToSQLLike pattern) key = true /\
             scan_fault env key = Some f' /\ m = MsgScanError (table s) f') /\
       db s' = db s /\ table s' = table s /\ ctx s' = ctx s /\
       sweepers s' = sweepers s /\ stdout s' = stdout s).
Proof.
  intros Hd. split; [|split; [|split; [|split]]].
  - intros env key value ttl now Hf.
    exact (single_key_faults s d env f key value ttl now Hd Hf).
  - intros env key r now Hf Hr Hv.
    exact (Get_null_value s d env key r now Hd Hf Hr Hv).
  - intros env clock pattern Hf.
    unfold Store_Keys, Store_Keys_run, db_Query. now rewrite Hd, Hf.
  - intros env clock pattern n Hq Hn.
    unfold Store_Keys, Store_Keys_run, db_Query. rewrite Hd, Hq, Hn. simpl.
    eexists. split; [reflexivity|].
    match goal with
    | |- context [fold_left (scan_row clock) ?rows ?st] =>
        destruct (scan_rows_store clock rows st) as (H1 & _ & _ & _ & H5 & _)
    end.
    simpl in H1. rewrite Hd in H1. exact (conj H1 H5).
  - intros env clock pattern Hq Hn.
    unfold Store_Keys, Store_Keys_run, db_Query. rewrite Hd, Hq, Hn.
    set (matched := filter (fun kr : string * Row =>
                              sql_like (globToSQLLike pattern) kr.1 = true)
                      (map_to_list (rel d))).
    destruct (In_scan_of_rows env matched) as [Hscanned Hfault].
    destruct (Keys_on_rows s clock pattern (globToSQLLike pattern)
                (map (scan_of env) matched))
      as (s1 & ks & dels & Hrun & H1 & H2 & H3 & H4 & H5 & Herr & Hks & Hdels).
    rewrite Hrun. simpl. eexists _, ks, dels. split; [reflexivity|].
    split; [|split; [reflexivity|split; [|split]]].
    + intros key. rewrite Hks. split.
      * intros (e & Hin & Hlive). apply Hscanned in Hin.
        destruct Hin as (r & Hin & Hsf & Hty & ->). apply In_matched in Hin.
        destruct Hin as [Hr Hl]. exists r. repeat split; try assumption.
        now symmetry.
      * intros (r & Hr & Hl & Hsf & Hty & Hlive). exists (expires_at r).
        split; [|exact Hlive]. apply Hscanned. exists r.
        repeat split; try assumption; [now apply In_matched|now symmetry].
    + intros key. rewrite Hdels. split.
      * intros (e & Hin & Hexp). apply Hscanned in Hin.
        destruct Hin as (r & Hin & Hsf & Hty & ->). apply In_matched in Hin.
        destruct Hin as [Hr Hl]. exists r. repeat split; try assumption.
        now symmetry.
      * intros (r & Hr & Hl & Hsf & Hty & Hexp). exists (expires_at r).
        split; [|exact Hexp]. apply Hscanned. exists r.
        repeat split; try assumption; [now apply In_matched|now symmetry].
    + intros m. simpl. rewrite Herr. split.
      * intros [H|(f' & Hin & ->)]; [now left|right].
        apply Hfault in Hin. destruct Hin as (key & r & Hin & Hsf).
        apply In_matched in Hin. destruct Hin as [Hr Hl].
        now exists key, r, f'.
      * intros [H|(key & r & f' & Hr & Hl & Hsf & ->)]; [now left|right].
        exists f'. split; [|reflexivity]. apply Hfault. exists key, r.
        split; [now apply In_matched|exact Hsf].
    + simpl. repeat split; congruence.
Qed.

Lemma storage_faults_reach_the_caller_witness :
  let s := store_of three_rows in
  exists s' ks,
    Store_Keys like_any s fault_on_a (fun _ => 50 * Second) "*" = Returns s' (ks, None) /\
    ~ In "a" ks /\ In "b" ks /\
    In (MsgScanError (table s) (FaultOther "scan")) (stderr s') /\
    db s' = db s.
Proof.
  cbv zeta.
  destruct (storage_faults_reach_the_caller like_any (store_of three_rows)
              (mkDB three_rows false) (FaultOther "scan") eq_refl)
    as (_ & _ & _ & _ & H).
  destruct (H fault_on_a (fun _ => 50 * Second) "*" eq_refl eq_refl)
    as (s' & ks & dels & Hrun & Hks & _ & _ & Herr & Hdb & _).
  exists s', ks. split; [exact Hrun|]. split; [|split; [|split]].
  - intros Hin. apply Hks in Hin. destruct Hin as (r & _ & _ & Hsf & _).
    vm_compute in Hsf. discriminate Hsf.
  - apply Hks. exists (mkRow (Some "2") "string" (Some 100)).
    split; [vm_compute; reflexivity|]. split; [reflexivity|].
    split; [reflexivity|]. split; [reflexivity|].
    intros (e & [= <-] & Hlt). vm_compute in Hlt. discriminate Hlt.
  - apply Herr. right. exists "a", (mkRow (Some "1") "string" None), (FaultOther "scan").
    split; [vm_compute; reflexivity|]. repeat split.
  - exact Hdb.
Defined.

(** ** Writes followed by reads *)

Lemma Set_healthy s d key value ttl now :
  db s = Some d -> db_closed d = false ->
  Store_Set s None key value ttl now =
    Returns
      (with_db s (mkDB (<[key := mkRow (Some value) "string"
                                   (if 0 <? ttl then Some (Unix (Add now ttl)) else None)]>
                          (rel d)) false))
      None.
Proof.
  intros Hd Hc. unfold Store_Set, db_upsert.
  now rewrite Hd, call_fault_open, Hc.
Qed.

Lemma Del_healthy s d key :
  db s = Some d -> db_closed d = false ->
  Store_Del s None key = Returns (with_db s (mkDB (delete key (rel d)) false)) None.
Proof.
  intros Hd Hc. unfold Store_Del, db_delete.
  now rewrite Hd, call_fault_open, Hc.
Qed.

Lemma Unix_lt_of_before t e : t < time_Unix e -> Unix t < e.
Proof.
  intros H. pose proof (time_Unix_le e) as Hle.
  unfold Unix, Second in *.
  apply Z.div_lt_upper_bound; lia.
Qed.







Lemma with_db_same s d : db s = Some d -> with_db s d = s.
Proof. destruct s. simpl. now intros ->. Qed.

Lemma TTL_permanent s d key r now :
  db s = Some d -> db_closed d = false -> rel d !! key = Some r ->
  type r = "string" -> expires_at r = None ->
  Store_TTL s None key now = Returns s (-1, None).
Proof.
  intros Hd Hc Hr Ht He. unfold Store_TTL.
  now rewrite Hd, (db_QueryRow_found _ _ _ Hc Hr), Ht, He.
Qed.

(** C7: [Set] of a key with a TTL of zero (or less) writes a row without
    expiration timestamp, and [TTL] of that key then returns -1 and no
    error: right after the [Set], and in any later state of the store in
    which the row of the key is still the one the [Set] wrote. *)
Theorem Set_without_ttl_then_TTL
    (s : Store) (d : DB) (key value : string) (ttl : Duration) (now : Time) :
  db s = Some d -> db_closed d = false -> ttl <= 0 ->
  exists s1 d1,
    Store_Set s None key value ttl now = Returns s1 None /\
    db s1 = Some d1 /\
    rel d1 !! key = Some (mkRow (Some value) "string" None) /\
    (forall now', Store_TTL s1 None key now' = Returns s1 (-1, None)) /\
    (forall s2 d2 now',
        db s2 = Some d2 -> db_closed d2 = false ->
        rel d2 !! key = rel d1 !! key ->
        Store_TTL s2 None key now' = Returns s2 (-1, None)).
Proof.
  intros Hd Hc Httl.
  assert (Hn : (0 <? ttl) = false) by (apply Z.ltb_ge; lia).
  set (r := mkRow (Some value) "string" None).
  set (d1 := mkDB (<[key := r]> (rel d)) false).
  assert (Hr : rel d1 !! key = Some r) by apply lookup_insert_eq.
  exists (with_db s d1), d1. split; [|split; [|split; [|split]]].
  - rewrite (Set_healthy s d key value ttl now Hd Hc), Hn. reflexivity.
  - reflexivity.
  - exact Hr.
  - intros now'.
    exact (TTL_permanent (with_db s d1) d1 key r now' eq_refl eq_refl Hr eq_refl eq_refl).
  - intros s2 d2 now' Hd2 Hc2 Hsame. rewrite Hr in Hsame.
    exact (TTL_permanent s2 d2 key r now' Hd2 Hc2 Hsame eq_refl eq_refl).
Qed.

Lemma Set_without_ttl_then_TTL_witness :
  let s := store_of three_rows in
  exists s1 d1,
    Store_Set s None "b" "v" 0 (300 * Second) = Returns s1 None /\
    db s1 = Some d1 /\
    rel d1 !! "b" = Some (mkRow (Some "v") "string" None) /\
    (forall now', Store_TTL s1 None "b" now' = Returns s1 (-1, None)) /\
    (forall s2 d2 now',
        db s2 = Some d2 -> db_closed d2 = false ->
        rel d2 !! "b" = rel d1 !! "b" ->
        Store_TTL s2 None "b" now' = Returns s2 (-1, None)).
Proof.
  cbv zeta.
  apply (Set_without_ttl_then_TTL (store_of three_rows) (mkDB three_rows false)
           "b" "v" 0 (300 * Second));
    try reflexivity; vm_compute; congruence.
Defined.

(** C8: absent a storage fault, [Del] returns no error whether or not the
    key is present; on an absent key it leaves the store as it is; and a
    second [Del] of the same key returns the same result and leaves the
    store in the state the first one produced. *)
Theorem Del_idempotent (s : Store) (d : DB) (key : string) :
  db s = Some d -> db_closed d = false ->
  exists s1 d1,
    Store_Del s None key = Returns s1 None /\
    Store_Del s1 None key = Returns s1 None /\
    db s1 = Some d1 /\ rel d1 = delete key (rel d) /\
    rel d1 !! key = None /\
    (rel d !! key = None -> s1 = s).
Proof.
  intros Hd Hc.
  set (d1 := mkDB (delete key (rel d)) false).
  exists (with_db s d1), d1.
  split; [exact (Del_healthy s d key Hd Hc)|].
  split; [|split; [reflexivity|split; [reflexivity|split]]].
  - rewrite (Del_healthy (with_db s d1) d1 key eq_refl eq_refl).
    simpl. rewrite delete_delete_eq. reflexivity.
  - apply lookup_delete_eq.
  - intros Habs. unfold d1. rewrite delete_id by exact Habs.
    apply with_db_same. rewrite Hd. destruct d as [m c]. simpl in *. now subst c.
Qed.

Lemma Del_idempotent_witness :
  let s := store_of three_rows in
  exists s1 d1,
    Store_Del s None "a" = Returns s1 None /\
    Store_Del s1 None "a" = Returns s1 None /\
    db s1 = Some d1 /\ rel d1 = delete "a" three_rows /\
    rel d1 !! "a" = None /\
    (three_rows !! "a" = None -> s1 = s).
Proof.
  cbv zeta.
  apply (Del_idempotent (store_of three_rows) (mkDB three_rows false) "a");
    reflexivity.
Defined.

(** ** The background cleanup *)

(** A line on standard output changes no call: each behaves as it would
    have without the line, which is still there afterwards. *)
Lemma scan_row_print clock m st r :
  scan_row clock (loop_print m st) r = loop_print m (scan_row clock st r).
Proof.
  destruct r as [key ty exp|f]; simpl; [|reflexivity].
  destruct (negb (String.eqb ty "string")); [reflexivity|].
  destruct exp as [e|]; [destruct (Unix (clock key) >? e)|]; reflexivity.
Qed.

Lemma scan_rows_print clock m rows st :
  fold_left (scan_row clock) rows (loop_print m st) =
  loop_print m (fold_left (scan_row clock) rows st).
Proof.
  revert st. induction rows as [|r rows IH]; intros st; simpl; [reflexivity|].
  now rewrite scan_row_print, IH.
Qed.

Lemma Keys_on_print s m clock pattern sqlPattern q :
  Keys_on (print s m) clock pattern sqlPattern q =
  (outcome_map (fun x => print x m) (Keys_on s clock pattern sqlPattern q).1,
   (Keys_on s clock pattern sqlPattern q).2).
Proof.
  destruct q as [f|rows err]; [reflexivity|]. unfold Keys_on.
  change (mkScanLoop [] [] (print s m) [EvQuery sqlPattern])
    with (loop_print m (mkScanLoop [] [] s [EvQuery sqlPattern])).
  rewrite scan_rows_print.
  set (st := fold_left (scan_row clock) rows (mkScanLoop [] [] s [EvQuery sqlPattern])).
  destruct err as [f|]; [reflexivity|].
  simpl. rewrite !spawn_deletes. reflexivity.
Qed.

Lemma calls_after_print (sql_like : string -> string -> bool) s m :
  (forall env key value ttl now,
      Store_Set (print s m) env key value ttl now =
      outcome_map (fun x => print x m) (Store_Set s env key value ttl now)) /\
  (forall env key now,
      Store_Get (print s m) env key now =
      outcome_map (fun x => print x m) (Store_Get s env key now)) /\
  (forall env key,
      Store_Del (print s m) env key =
      outcome_map (fun x => print x m) (Store_Del s env key)) /\
  (forall env key now,
      Store_Exists (print s m) env key now =
      outcome_map (fun x => print x m) (Store_Exists s env key now)) /\
  (forall env key now,
      Store_TTL (print s m) env key now =
      outcome_map (fun x => print x m) (Store_TTL s env key now)) /\
  (forall env clock pattern,
      Store_Keys sql_like (print s m) env clock pattern =
      outcome_map (fun x => print x m) (Store_Keys sql_like s env clock pattern)).
Proof.
  repeat split.
  - intros env key value ttl now. unfold Store_Set. simpl.
    destruct (db s) as [d|]; [|reflexivity].
    destruct (db_upsert d env key _) as [d' [f|]]; reflexivity.
  - intros env key now. unfold Store_Get. simpl.
    destruct (db s) as [d|]; [|reflexivity].
    destruct (db_QueryRow d env key) as [|f|r]; try reflexivity.
    destruct (value r); [|reflexivity].
    destruct (negb (String.eqb (type r) "string")); [reflexivity|].
    destruct (expires_at r) as [e|]; [destruct (Unix now >? e)|]; reflexivity.
  - intros env key. unfold Store_Del. simpl.
    destruct (db s) as [d|]; [|reflexivity].
    destruct (db_delete d env key) as [d' [f|]]; reflexivity.
  - intros env key now. unfold Store_Exists. simpl.
    destruct (db s) as [d|]; [|reflexivity].
    destruct (db_QueryRow d env key) as [|f|r]; try reflexivity.
    destruct (expires_at r) as [e|]; [destruct (Unix now >? e)|]; reflexivity.
  - intros env key now. unfold Store_TTL. simpl.
    destruct (db s) as [d|]; [|reflexivity].
    destruct (db_QueryRow d env key) as [|f|r]; try reflexivity.
    destruct (negb (String.eqb (type r) "string")); [reflexivity|].
    destruct (expires_at r) as [e|]; [destruct (Before (time_Unix e) now)|];
      reflexivity.
  - intros env clock pattern. unfold Store_Keys, Store_Keys_run. simpl.
    destruct (db s) as [d|]; [|reflexivity].
    now rewrite Keys_on_print.
Qed.

Lemma RunCleanup_starts_a_sweeper s d interval :
  db s = Some d -> 0 < interval ->
  Store_RunCleanup s interval =
    with_sweepers s (sweepers s ++ [mkSweeper interval SwSpawned]).
Proof.
  intros Hd Hpos. unfold Store_RunCleanup. rewrite Hd.
  assert (Hn : (interval <=? 0) = false) by (apply Z.leb_gt; lia).
  now rewrite Hn.
Qed.

(** C9: [RunCleanup] with an interval of zero or less starts no cleanup
    goroutine and prints one line saying so; it returns normally, every
    operation then behaves on the store as it would have without the call
    (the printed line apart), and reads still enforce expiration lazily:
    an expired row is reported absent and its deletion is spawned. *)
Theorem RunCleanup_rejects_nonpositive_interval
    (sql_like : string -> string -> bool) (s : Store) (interval : Duration) :
  interval <= 0 ->
  exists m,
    Store_RunCleanup s interval = print s m /\
    (is_Some (db s) -> m = MsgCleanupInterval) /\
    sweepers (print s m) = sweepers s /\
    (forall env key value ttl now,
        Store_Set (print s m) env key value ttl now =
        outcome_map (fun x => print x m) (Store_Set s env key value ttl now)) /\
    (forall env key now,
        Store_Get (print s m) env key now =
        outcome_map (fun x => print x m) (Store_Get s env key now)) /\
    (forall env key,
        Store_Del (print s m) env key =
        outcome_map (fun x => print x m) (Store_Del s env key)) /\
    (forall env key now,
        Store_Exists (print s m) env key now =
        outcome_map (fun x => print x m) (Store_Exists s env key now)) /\
    (forall env key now,
        Store_TTL (print s m) env key now =
        outcome_map (fun x => print x m) (Store_TTL s env key now)) /\
    (forall env clock pattern,
        Store_Keys sql_like (print s m) env clock pattern =
        outcome_map (fun x => print x m) (Store_Keys sql_like s env clock pattern)) /\
    (forall d key r e now,
        db s = Some d -> db_closed d = false -> rel d !! key = Some r ->
        expires_at r = Some e -> e < Unix now ->
        Store_Exists (print s m) None key now =
          Returns (go_Del (print s m) key) (false, None) /\
        (type r = "string" ->
           Store_TTL (print s m) None key now =
             Returns (go_Del (print s m) key) (0, Some ErrKeyNotFound) /\
           (is_Some (value r) ->
              Store_Get (print s m) None key now =
                Returns (go_Del (print s m) key) ("", Some ErrKeyNotFound)))).
Proof.
  intros Hle.
  assert (Hb : (interval <=? 0) = true) by (apply Z.leb_le; exact Hle).
  exists (match db s with Some _ => MsgCleanupInterval | None => MsgCleanupNilDB end).
  set (m := match db s with Some _ => MsgCleanupInterval | None => MsgCleanupNilDB end).
  destruct (calls_after_print sql_like s m) as (HS & HG & HD & HE & HT & HK).
  refine (conj _ (conj _ (conj eq_refl (conj HS (conj HG (conj HD (conj HE
            (conj HT (conj HK _))))))))).
  - unfold Store_RunCleanup, m. destruct (db s); [now rewrite Hb|reflexivity].
  - unfold m. now intros [d ->].
  - intros d key r e now Hd Hc Hr He Hlt.
    assert (Hd' : db (print s m) = Some d) by exact Hd.
    split.
    + rewrite (Exists_expiry _ _ _ _ _ now Hd' Hc Hr He).
      apply Z.ltb_lt in Hlt. now rewrite Hlt.
    + intros Hty. split.
      * rewrite (TTL_expiry _ _ _ _ _ now Hd' Hc Hr Hty He).
        apply Unix_lt_before, Z.ltb_lt in Hlt. now rewrite Hlt.
      * intros [v Hv].
        rewrite (Get_expiry _ _ _ _ _ _ now Hd' Hc Hr Hv Hty He).
        apply Z.ltb_lt in Hlt. now rewrite Hlt.
Qed.

Lemma RunCleanup_rejects_nonpositive_interval_witness :
  exists m,
    Store_RunCleanup (store_of three_rows) 0 = print (store_of three_rows) m /\
    m = MsgCleanupInterval /\
    sweepers (print (store_of three_rows) m) = [] /\
    Store_Get (print (store_of three_rows) m) None "b" (200 * Second) =
      Returns (go_Del (print (store_of three_rows) m) "b") ("", Some ErrKeyNotFound).
Proof.
  destruct (RunCleanup_rejects_nonpositive_interval like_any (store_of three_rows) 0)
    as (m & Hrun & Hm & Hsw & _ & _ & _ & _ & _ & _ & Hlazy);
    [vm_compute; congruence|].
  exists m. split; [exact Hrun|]. split; [apply Hm; now eexists|].
  split; [exact Hsw|].
  destruct (Hlazy (mkDB three_rows false) "b" (mkRow (Some "2") "string" (Some 100))
              100 (200 * Second)) as [_ H];
    [vm_compute; reflexivity .. |].
  destruct (H eq_refl) as [_ Hget]. apply Hget. now eexists.
Defined.

(** ** The type tag on the public surface *)

Lemma all_strings_same_db s s' : db s' = db s -> all_strings s -> all_strings s'.
Proof. unfold all_strings. intros Heq H d key r Hd. rewrite Heq in Hd. eauto. Qed.

Lemma all_strings_with_db s d :
  (forall key r, rel d !! key = Some r -> type r = "string") ->
  all_strings (with_db s d).
Proof. intros H d' key r [= <-]. apply H. Qed.

Lemma Set_keeps_strings s env key value ttl now s' res :
  all_strings s -> Store_Set s env key value ttl now = Returns s' res ->
  all_strings s'.
Proof.
  unfold Store_Set, db_upsert. intros Hinv.
  destruct (db s) as [d|] eqn:Hd; [|discriminate].
  destruct (call_fault d env); intros [= <- _]; [exact Hinv|].
  apply all_strings_with_db. simpl. intros k r.
  rewrite lookup_insert. destruct (decide (key = k)).
  - now intros [= <-].
  - intros Hr. exact (Hinv d k r Hd Hr).
Qed.

Lemma Del_keeps_strings s env key s' res :
  all_strings s -> Store_Del s env key = Returns s' res -> all_strings s'.
Proof.
  unfold Store_Del, db_delete. intros Hinv.
  destruct (db s) as [d|] eqn:Hd; [|discriminate].
  destruct (call_fault d env); intros [= <- _]; [exact Hinv|].
  apply all_strings_with_db. simpl. intros k r Hr.
  apply lookup_delete_Some in Hr. destruct Hr as [_ Hr]. exact (Hinv d k r Hd Hr).
Qed.

Lemma Get_keeps_db s env key now s' res :
  Store_Get s env key now = Returns s' res -> db s' = db s.
Proof.
  unfold Store_Get. destruct (db s) as [d|] eqn:Hd; [|discriminate].
  destruct (db_QueryRow d env key) as [|f|r]; try (intros [= <- _]; exact Hd).
  destruct (value r); [|intros [= <- _]; exact Hd].
  destruct (negb (String.eqb (type r) "string")); [intros [= <- _]; exact Hd|].
  destruct (expires_at r) as [e|]; [destruct (Unix now >? e)|];
    intros [= <- _]; exact Hd.
Qed.

Lemma Exists_keeps_db s env key now s' res :
  Store_Exists s env key now = Returns s' res -> db s' = db s.
Proof.
  unfold Store_Exists. destruct (db s) as [d|] eqn:Hd; [|discriminate].
  destruct (db_QueryRow d env key) as [|f|r]; try (intros [= <- _]; exact Hd).
  destruct (expires_at r) as [e|]; [destruct (Unix now >? e)|];
    intros [= <- _]; exact Hd.
Qed.

Lemma TTL_keeps_db s env key now s' res :
  Store_TTL s env key now = Returns s' res -> db s' = db s.
Proof.
  unfold Store_TTL. destruct (db s) as [d|] eqn:Hd; [|discriminate].
  destruct (db_QueryRow d env key) as [|f|r]; try (intros [= <- _]; exact Hd).
  destruct (negb (String.eqb (type r) "string")); [intros [= <- _]; exact Hd|].
  destruct (expires_at r) as [e|]; [destruct (Before (time_Unix e) now)|];
    intros [= <- _]; exact Hd.
Qed.

Lemma Keys_keeps_db (sql_like : string -> string -> bool) s env clock pattern s' res :
  Store_Keys sql_like s env clock pattern = Returns s' res -> db s' = db s.
Proof.
  unfold Store_Keys, Store_Keys_run.
  destruct (db s) as [d|] eqn:Hd; [|discriminate].
  destruct (db_Query sql_like d env (globToSQLLike pattern)) as [f|rows err];
    simpl; [intros [= <- _]; exact Hd|].
  match goal with
  | |- context [fold_left (scan_row clock) rows ?st0] =>
      destruct (scan_rows_store clock rows st0) as (H1 & _); simpl in H1;
      set (st := fold_left (scan_row clock) rows st0) in *
  end.
  destruct err as [f|]; simpl.
  - intros [= <- _]. congruence.
  - rewrite spawn_deletes. simpl. intros [= <- _]. simpl. congruence.
Qed.

Lemma cleanup_tick_keeps_strings s d now env :
  db s = Some d -> all_strings s -> all_strings (cleanup_tick s d now env).
Proof.
  intros Hd Hinv. unfold cleanup_tick, db_delete_expired.
  destruct (call_fault d env); [exact Hinv|].
  set (kept := filter (fun kr => sql_expired (Unix now) kr.2 = false) (rel d)).
  assert (Hk : all_strings (with_db s (mkDB kept (db_closed d)))).
  { apply all_strings_with_db. simpl. intros k r Hr.
    apply map_lookup_filter_Some in Hr. destruct Hr as [Hr _].
    exact (Hinv d k r Hd Hr). }
  destruct (_ >? 0); exact Hk.
Qed.

Lemma RunCleanup_keeps_db s interval : db (Store_RunCleanup s interval) = db s.
Proof.
  unfold Store_RunCleanup. destruct s as [[d|] ? ? ? ? ? ?]; simpl;
    [destruct (interval <=? 0)|]; reflexivity.
Qed.

Lemma perform_keeps_strings (sql_like : string -> string -> bool) s a s' :
  all_strings s -> perform sql_like s a = Some s' -> all_strings s'.
Proof.
  intros Hinv. destruct a; simpl.
  - destruct (Store_Set s env key value0 ttl now) as [s1 r|] eqn:H; intros [= <-].
    exact (Set_keeps_strings _ _ _ _ _ _ _ _ Hinv H).
  - destruct (Store_Get s env key now) as [s1 r|] eqn:H; intros [= <-].
    exact (all_strings_same_db _ _ (Get_keeps_db _ _ _ _ _ _ H) Hinv).
  - destruct (Store_Del s env key) as [s1 r|] eqn:H; intros [= <-].
    exact (Del_keeps_strings _ _ _ _ _ Hinv H).
  - destruct (Store_Exists s env key now) as [s1 r|] eqn:H; intros [= <-].
    exact (all_strings_same_db _ _ (Exists_keeps_db _ _ _ _ _ _ H) Hinv).
  - destruct (Store_TTL s env key now) as [s1 r|] eqn:H; intros [= <-].
    exact (all_strings_same_db _ _ (TTL_keeps_db _ _ _ _ _ _ H) Hinv).
  - destruct (Store_Keys sql_like s env clock pattern) as [s1 r|] eqn:H; intros [= <-].
    exact (all_strings_same_db _ _ (Keys_keeps_db _ _ _ _ _ _ _ H) Hinv).
  - intros [= <-].
    exact (all_strings_same_db s _ (RunCleanup_keeps_db s interval0) Hinv).
  - intros [= <-]. unfold Store_Close.
    destruct (db s) as [d|] eqn:Hd; simpl.
    + intros d' k r [= <-]. simpl. exact (Hinv d k r Hd).
    + intros d' k r [=].
  - unfold run_detached. destruct (detached s !! i) as [key|]; [|discriminate].
    destruct (Store_Del _ env key) as [s1 r|] eqn:H; intros [= <-].
    refine (Del_keeps_strings _ _ _ _ _ _ H).
    exact (all_strings_same_db s _ eq_refl Hinv).
  - unfold sweeper_step.
    destruct (sweepers s !! i) as [sw|]; [|discriminate].
    destruct (db s) as [d|] eqn:Hd; [|discriminate].
    destruct (pc sw).
    + intros [= <-]. exact (all_strings_same_db s _ eq_refl Hinv).
    + destruct sel as [|now env].
      * destruct (ctx s) as [[|]|]; try discriminate.
        intros [= <-]. exact (all_strings_same_db s _ eq_refl Hinv).
      * intros [= <-]. now apply cleanup_tick_keeps_strings.
Qed.

(** C10: in every state the store reaches through its public surface
    alone (opened on a fresh table or on one such a store left behind,
    with the goroutines it spawns and whatever failures the collaborator
    injects), every row has the type tag ["string"]:
    [Set] writes that tag and nothing else writes or changes a tag; so
    [Get] and [TTL] never return [ErrWrongType] there. *)
Theorem public_surface_never_WrongType
    (sql_like : string -> string -> bool) (s : Store) :
  reachable sql_like s ->
  all_strings s /\
  (forall env key now s' v,
      Store_Get s env key now <> Returns s' (v, Some ErrWrongType)) /\
  (forall env key now s' t,
      Store_TTL s env key now <> Returns s' (t, Some ErrWrongType)) /\
  (forall env key value ttl now s1 d1,
      Store_Set s env key value ttl now = Returns s1 None -> db s1 = Some d1 ->
      exists e, rel d1 !! key = Some (mkRow (Some value) "string" e)).
Proof.
  intros Hreach.
  assert (Hinv : all_strings s).
  { induction Hreach as [table s0 Hopen|s d table s0 _ IH Hd Hopen|s a s' _ IH Hp].
    - unfold Open in Hopen. destruct (String.eqb table ""); [discriminate|].
      injection Hopen as <-. intros d key r [= <-]. simpl.
      rewrite lookup_empty. discriminate.
    - unfold Open in Hopen. destruct (String.eqb table ""); [discriminate|].
      injection Hopen as <-. intros d' key r [= <-]. simpl.
      exact (IH d key r Hd).
    - exact (perform_keeps_strings sql_like s a s' IH Hp). }
  split; [exact Hinv|]. split; [|split].
  - intros env key now s' v H. apply Get_WrongType_iff in H.
    destruct H as (_ & _ & d & r & Hd & _ & Hr & _ & Hne).
    exact (Hne (Hinv d key r Hd Hr)).
  - intros env key now s' t H. apply TTL_WrongType_iff in H.
    destruct H as (_ & _ & d & r & Hd & _ & Hr & Hne).
    exact (Hne (Hinv d key r Hd Hr)).
  - intros env key value ttl now s1 d1. unfold Store_Set, db_upsert.
    destruct (db s) as [d|]; [|discriminate].
    destruct (call_fault d env); [discriminate|].
    intros [= <-] [= <-]. eexists. simpl. apply lookup_insert_eq.
Qed.

Lemma reachable_run (sql_like : string -> string -> bool) acts s s' :
  reachable sql_like s -> run sql_like s acts = Some s' -> reachable sql_like s'.
Proof.
  revert s. induction acts as [|a acts IH]; intros s Hs; simpl.
  - now intros [= <-].
  - destruct (perform sql_like s a) as [s1|] eqn:Hp; [|discriminate].
    apply IH. exact (reach_step sql_like s a s1 Hs Hp).
Qed.

Lemma public_surface_never_WrongType_witness :
  exists s0 s,
    Open ∅ "kv" OpenHealthy = inl s0 /\
    run like_any s0 session = Some s /\
    all_strings s /\
    (forall env key now s' v,
        Store_Get s env key now <> Returns s' (v, Some ErrWrongType)) /\
    (forall env key now s' t,
        Store_TTL s env key now <> Returns s' (t, Some ErrWrongType)) /\
    (forall env key value ttl now s1 d1,
        Store_Set s env key value ttl now = Returns s1 None -> db s1 = Some d1 ->
        exists e, rel d1 !! key = Some (mkRow (Some value) "string" e)).
Proof.
  eexists _, _. split; [reflexivity|]. split; [vm_compute; reflexivity|].
  apply (public_surface_never_WrongType like_any).
  apply (reachable_run like_any session (store_of ∅)).
  - apply (reach_fresh like_any "kv"). reflexivity.
  - vm_compute. reflexivity.
Defined.

(** * Further properties of the code *)

(** ** The quoted table name *)

Lemma append_cons c (a b : string) : String c a +:+ b = String c (a +:+ b).
Proof. reflexivity. Qed.

Lemma append_nil_l (a : string) : EmptyString +:+ a = a.
Proof. reflexivity. Qed.

Lemma prefix_one q c rest :
  String.prefix (String q EmptyString) (String c rest) = Ascii.eqb c q.
Proof.
  simpl. destruct (ascii_dec q c) as [->|Hne].
  - rewrite Ascii.eqb_refl. now destruct rest.
  - symmetry. apply Ascii.eqb_neq. congruence.
Qed.

Lemma unquote_body_doubled t :
  unquote_body
    (GoStrings.replace_from (String GoStrings.dquote EmptyString)
       (String GoStrings.dquote (String GoStrings.dquote EmptyString)) 0 t
     +:+ String GoStrings.dquote EmptyString) = Some t.
Proof.
  induction t as [|c t IH].
  - reflexivity.
  - cbn [GoStrings.replace_from]. rewrite prefix_one.
    destruct (Ascii.eqb c GoStrings.dquote) eqn:Hc.
    + apply Ascii.eqb_eq in Hc. subst c.
      match goal with
      | |- unquote_body (((String ?q (String ?q EmptyString)) +:+ ?r) +:+ ?e) = _ =>
          change (unquote_body (String q (String q (r +:+ e)))
                  = Some (String GoStrings.dquote t))
      end.
      cbn [unquote_body]. rewrite !Ascii.eqb_refl.
      change (Nat.pred (String.length (String GoStrings.dquote EmptyString)))
        with 0%nat.
      now rewrite IH.
    + rewrite append_cons. cbn [unquote_body]. rewrite Hc. now rewrite IH.
Qed.

(** X1: the quoted table name is one well-formed quoted identifier that
    reads back as the table name, whatever characters the name holds;
    so stores with different table names get different identifiers. *)
Theorem quoteTable_reads_back (s : Store) :
  unquote (quoteTable s) = Some (table s) /\
  (forall s', quoteTable s = quoteTable s' -> table s = table s').
Proof.
  assert (H : forall x, unquote (quoteTable x) = Some (table x)).
  { intros x. unfold quoteTable, GoStrings.ReplaceAll. cbv zeta.
    rewrite append_cons, append_nil_l. cbn [unquote].
    rewrite Ascii.eqb_refl. apply unquote_body_doubled. }
  split; [apply H|].
  intros s' Heq. pose proof (H s) as H1. rewrite Heq, H in H1. congruence.
Qed.

(** ** Size and reversibility of the pattern translation *)

Lemma length_append (a b : string) :
  String.length (a +:+ b) = (String.length a + String.length b)%nat.
Proof.
  induction a as [|c a IH]; [reflexivity|].
  rewrite append_cons. simpl. now rewrite IH.
Qed.

Lemma translate_char_length c :
  (1 <= String.length (translate_char c) <= 2)%nat.
Proof.
  unfold translate_char.
  repeat (destruct (Ascii.eqb c _); [simpl; lia|]). simpl; lia.
Qed.

Lemma globToSQLLike_cons c rest :
  globToSQLLike (String c rest) = translate_char c +:+ globToSQLLike rest.
Proof.
  unfold globToSQLLike.
  change (String c rest) with (String c EmptyString +:+ rest).
  now rewrite Replace_app, replacer_translate_char.
Qed.

(** X2: the translated pattern is at least as long as the glob and at
    most twice as long, so the capacity reserved for it always
    suffices. *)
Theorem globToSQLLike_length (glob : string) :
  (String.length glob <= String.length (globToSQLLike glob)
   <= 2 * String.length glob)%nat.
Proof.
  induction glob as [|c rest IH]; [simpl; lia|].
  rewrite globToSQLLike_cons, length_append.
  pose proof (translate_char_length c). simpl String.length. lia.
Qed.

(** X3: a glob without backslash can be read back from its translation;
    hence two such globs with the same translation are the same glob. *)
Theorem globToSQLLike_reads_back (glob : string) :
  no_backslash glob = true ->
  untranslate (globToSQLLike glob) = glob /\
  (forall glob', no_backslash glob' = true ->
                 globToSQLLike glob = globToSQLLike glob' -> glob = glob').
Proof.
  assert (H : forall g, no_backslash g = true -> untranslate (globToSQLLike g) = g).
  { induction g as [|c rest IH]; [reflexivity|].
    simpl no_backslash. intros Hnb. apply andb_prop in Hnb. destruct Hnb as [Hc Hrest].
    apply negb_true_iff in Hc. rewrite globToSQLLike_cons. unfold translate_char.
    destruct (Ascii.eqb_spec c "%") as [->|H1].
    { change (untranslate (String "\" (String "%" (globToSQLLike rest)))
              = String "%" rest).
      cbn [untranslate]. simpl Ascii.eqb. cbv iota. now rewrite IH. }
    destruct (Ascii.eqb_spec c "_") as [->|H2].
    { change (untranslate (String "\" (String "_" (globToSQLLike rest)))
              = String "_" rest).
      cbn [untranslate]. simpl Ascii.eqb. cbv iota. now rewrite IH. }
    destruct (Ascii.eqb_spec c "*") as [->|H3].
    { change (untranslate (String "%" (globToSQLLike rest)) = String "*" rest).
      cbn [untranslate]. simpl Ascii.eqb. cbv iota. now rewrite IH. }
    destruct (Ascii.eqb_spec c "?") as [->|H4].
    { change (untranslate (String "_" (globToSQLLike rest)) = String "?" rest).
      cbn [untranslate]. simpl Ascii.eqb. cbv iota. now rewrite IH. }
    rewrite append_cons, append_nil_l. cbn [untranslate]. rewrite Hc.
    apply Ascii.eqb_neq in H1, H2. rewrite H1, H2. now rewrite IH. }
  intros Hnb. split; [now apply H|].
  intros glob' Hnb' Heq. rewrite <- (H glob Hnb), <- (H glob' Hnb'). now rewrite Heq.
Qed.

Lemma globToSQLLike_reads_back_witness :
  untranslate (globToSQLLike "user:*_50%?") = "user:*_50%?" /\
  (forall glob', no_backslash glob' = true ->
                 globToSQLLike "user:*_50%?" = globToSQLLike glob' ->
                 "user:*_50%?" = glob').
Proof.
  apply (globToSQLLike_reads_back "user:*_50%?"). reflexivity.
Defined.

(** X4: a backslash in the glob is not escaped: anywhere in a pattern,
    a backslash followed by [*] translates as a literal [%] does, and a
    backslash followed by [?] as a literal [_] does, although the globs
    differ. *)
Theorem globToSQLLike_backslash_collides (a b : string) :
  globToSQLLike (a +:+ "\*" +:+ b) = globToSQLLike (a +:+ "%" +:+ b) /\
  globToSQLLike (a +:+ "\?" +:+ b) = globToSQLLike (a +:+ "_" +:+ b) /\
  a +:+ "\*" +:+ b <> a +:+ "%" +:+ b /\
  a +:+ "\?" +:+ b <> a +:+ "_" +:+ b.
Proof.
  unfold globToSQLLike. rewrite !Replace_app.
  split; [reflexivity|]. split; [reflexivity|].
  split; intros H; apply (f_equal String.length) in H;
    rewrite !length_append in H; simpl in H; lia.
Qed.

(** ** Opening and closing *)

Lemma Get_absent s d key now :
  db s = Some d -> db_closed d = false -> rel d !! key = None ->
  Store_Get s None key now = Returns s ("", Some ErrKeyNotFound).
Proof.
  intros Hd Hc Hr. unfold Store_Get, db_QueryRow.
  now rewrite Hd, call_fault_open, Hr.
Qed.

Lemma Exists_absent s d key now :
  db s = Some d -> db_closed d = false -> rel d !! key = None ->
  Store_Exists s None key now = Returns s (false, None).
Proof.
  intros Hd Hc Hr. unfold Store_Exists, db_QueryRow.
  now rewrite Hd, call_fault_open, Hr.
Qed.

Lemma TTL_absent s d key now :
  db s = Some d -> db_closed d = false -> rel d !! key = None ->
  Store_TTL s None key now = Returns s (0, Some ErrKeyNotFound).
Proof.
  intros Hd Hc Hr. unfold Store_TTL, db_QueryRow.
  now rewrite Hd, call_fault_open, Hr.
Qed.

(** X5: [Open] refuses an empty table name before it touches the
    database; and a store opened on a fresh table holds no key: [Get] and
    [TTL] answer [ErrKeyNotFound], [Exists] answers false and [Keys]
    returns nothing, for every key and pattern, without error and without
    changing the store. *)
Theorem Open_fresh_store_is_empty
    (sql_like : string -> string -> bool) (table : string) (s : Store) :
  Open ∅ table OpenHealthy = inl s ->
  table <> "" /\
  (forall existing env, Open existing "" env = inr ErrEmptyTable) /\
  (forall key now,
      Store_Get s None key now = Returns s ("", Some ErrKeyNotFound) /\
      Store_TTL s None key now = Returns s (0, Some ErrKeyNotFound) /\
      Store_Exists s None key now = Returns s (false, None)) /\
  (forall clock pattern,
      Store_Keys sql_like s no_faults clock pattern = Returns s ([], None)).
Proof.
  unfold Open. destruct (String.eqb_spec table "") as [->|Hne]; [discriminate|].
  intros [= <-]. split; [exact Hne|]. split; [reflexivity|]. split.
  - intros key now.
    split; [|split];
      [eapply Get_absent | eapply TTL_absent | eapply Exists_absent];
      try reflexivity; apply lookup_empty.
  - intros clock pattern. unfold Store_Keys, Store_Keys_run, db_Query. simpl.
    rewrite map_to_list_empty. reflexivity.
Qed.

Lemma Open_fresh_store_is_empty_witness :
  exists s,
    Open ∅ "kv" OpenHealthy = inl s /\
    Store_Get s None "k" 0 = Returns s ("", Some ErrKeyNotFound) /\
    Store_Keys like_any s no_faults (fun _ => 0) "*" = Returns s ([], None).
Proof.
  exists (store_of ∅). split; [reflexivity|].
  destruct (Open_fresh_store_is_empty like_any "kv" (store_of ∅) eq_refl)
    as (_ & _ & Hreads & Hkeys).
  split; [apply Hreads | apply Hkeys].
Defined.

(** X6: [Close] keeps the rows and closes the handle: from then on
    [Set], [Get], [Del], [Exists], [TTL] and [Keys] all fail with the
    wrapped "database is closed" failure, whatever else the environment
    does, and leave the store as it is. *)
Theorem operations_fail_after_Close
    (sql_like : string -> string -> bool) (s : Store) (d : DB) (env0 : option Fault) :
  db s = Some d ->
  let s' := (Store_Close s env0).1 in
  db s' = Some (mkDB (rel d) true) /\
  (forall env key value ttl now,
      Store_Set s' env key value ttl now =
        Returns s' (Some (Errorf (CtxSet key (table s)) FaultClosed)) /\
      Store_Get s' env key now =
        Returns s' ("", Some (Errorf (CtxGet key (table s)) FaultClosed)) /\
      Store_Del s' env key =
        Returns s' (Some (Errorf (CtxDel key (table s)) FaultClosed)) /\
      Store_Exists s' env key now =
        Returns s' (false, Some (Errorf (CtxExists key (table s)) FaultClosed)) /\
      Store_TTL s' env key now =
        Returns s' (0, Some (Errorf (CtxTTL key (table s)) FaultClosed))) /\
  (forall env clock pattern,
      Store_Keys sql_like s' env clock pattern =
        Returns s' ([], Some (Errorf (CtxKeysQuery pattern (globToSQLLike pattern)
                                        (table s)) FaultClosed))).
Proof.
  intros Hd. cbv zeta. unfold Store_Close. rewrite Hd. simpl.
  split; [reflexivity|]. split.
  - intros env key value ttl now.
    match goal with
    | |- Store_Set ?x _ _ _ _ _ = _ /\ _ =>
        exact (single_key_faults x (mkDB (rel d) true) env FaultClosed
                 key value ttl now eq_refl eq_refl)
    end.
  - intros env clock pattern. reflexivity.
Qed.

Lemma operations_fail_after_Close_witness :
  let s' := (Store_Close (store_of three_rows) None).1 in
  Store_Get s' None "a" 0 =
    Returns s' ("", Some (Errorf (CtxGet "a" "kv") FaultClosed)) /\
  Store_Set s' None "a" "v" 0 0 =
    Returns s' (Some (Errorf (CtxSet "a" "kv") FaultClosed)).
Proof.
  cbv zeta.
  destruct (operations_fail_after_Close like_any (store_of three_rows)
              (mkDB three_rows false) None eq_refl) as (_ & H & _).
  destruct (H None "a" "v" 0 0) as (Hset & Hget & _).
  split; [exact Hget | exact Hset].
Defined.

(** ** Writes, reads and the other keys *)

(** What a read of a key returns depends on the row of that key, on the
    handle being open and on the injected failure only. *)
Lemma reads_depend_on_row s s1 d d1 env key now :
  db s = Some d -> db s1 = Some d1 -> table s1 = table s ->
  db_closed d1 = db_closed d -> rel d1 !! key = rel d !! key ->
  result_of (Store_Get s1 env key now) = result_of (Store_Get s env key now) /\
  result_of (Store_Exists s1 env key now) = result_of (Store_Exists s env key now) /\
  result_of (Store_TTL s1 env key now) = result_of (Store_TTL s env key now).
Proof.
  intros Hd Hd1 Ht Hc Hr.
  unfold Store_Get, Store_Exists, Store_TTL, db_QueryRow, call_fault.
  rewrite Hd, Hd1, Hc, Hr, Ht.
  destruct (db_closed d); [repeat split|].
  destruct env as [f|]; [repeat split|].
  destruct (rel d !! key) as [r|]; [|repeat split].
  split; [|split].
  - destruct (value r); [|reflexivity].
    destruct (negb (String.eqb (type r) "string")); [reflexivity|].
    destruct (expires_at r) as [e|]; [destruct (Unix now >? e)|]; reflexivity.
  - destruct (expires_at r) as [e|]; [destruct (Unix now >? e)|]; reflexivity.
  - destruct (negb (String.eqb (type r) "string")); [reflexivity|].
    destruct (expires_at r) as [e|]; [destruct (Before (time_Unix e) now)|];
      reflexivity.
Qed.

Lemma Get_permanent s d key r v now :
  db s = Some d -> db_closed d = false -> rel d !! key = Some r ->
  value r = Some v -> type r = "string" -> expires_at r = None ->
  Store_Get s None key now = Returns s (v, None).
Proof.
  intros Hd Hc Hr Hv Ht He. unfold Store_Get.
  now rewrite Hd, (db_QueryRow_found _ _ _ Hc Hr), Hv, Ht, He.
Qed.

Lemma Exists_permanent s d key r now :
  db s = Some d -> db_closed d = false -> rel d !! key = Some r ->
  expires_at r = None ->
  Store_Exists s None key now = Returns s (true, None).
Proof.
  intros Hd Hc Hr He. unfold Store_Exists.
  now rewrite Hd, (db_QueryRow_found _ _ _ Hc Hr), He.
Qed.

(** X7: [Set] replaces whatever row the key had (expired, of another
    type, without value) and touches no other key: every read of another
    key returns what it returned before; no goroutine is spawned; and
    after a [Set] without TTL, [Get] returns the value and [Exists] is
    true at any later time. *)
Theorem Set_overwrites_one_key
    (s : Store) (d : DB) (key value : string) (ttl : Duration) (now : Time) :
  db s = Some d -> db_closed d = false ->
  exists s1,
    Store_Set s None key value ttl now = Returns s1 None /\
    detached s1 = detached s /\ sweepers s1 = sweepers s /\
    (forall env key' now', key' <> key ->
        result_of (Store_Get s1 env key' now') = result_of (Store_Get s env key' now') /\
        result_of (Store_Exists s1 env key' now')
          = result_of (Store_Exists s env key' now') /\
        result_of (Store_TTL s1 env key' now') = result_of (Store_TTL s env key' now')) /\
    (ttl <= 0 -> forall now',
        Store_Get s1 None key now' = Returns s1 (value, None) /\
        Store_Exists s1 None key now' = Returns s1 (true, None)).
Proof.
  intros Hd Hc.
  set (r := mkRow (Some value) "string"
              (if 0 <? ttl then Some (Unix (Add now ttl)) else None)).
  set (d1 := mkDB (<[key := r]> (rel d)) false).
  exists (with_db s d1).
  split; [exact (Set_healthy s d key value ttl now Hd Hc)|].
  split; [reflexivity|]. split; [reflexivity|]. split.
  - intros env key' now' Hne.
    apply (reads_depend_on_row s (with_db s d1) d d1); try reflexivity; try assumption.
    + simpl. now rewrite Hc.
    + simpl. apply lookup_insert_ne. congruence.
  - intros Httl now'.
    assert (Hn : (0 <? ttl) = false) by (apply Z.ltb_ge; lia).
    assert (Hr : rel d1 !! key = Some (mkRow (Some value) "string" None)).
    { unfold d1, r. rewrite Hn. apply lookup_insert_eq. }
    split.
    + exact (Get_permanent (with_db s d1) d1 key _ value now'
               eq_refl eq_refl Hr eq_refl eq_refl eq_refl).
    + exact (Exists_permanent (with_db s d1) d1 key _ now'
               eq_refl eq_refl Hr eq_refl).
Qed.

Lemma Set_overwrites_one_key_witness :
  exists s1,
    Store_Set (store_of three_rows) None "c" "v" 0 0 = Returns s1 None /\
    Store_Get s1 None "c" (500 * Second) = Returns s1 ("v", None) /\
    result_of (Store_Get s1 None "a" 0) = Some ("1", None).
Proof.
  destruct (Set_overwrites_one_key (store_of three_rows) (mkDB three_rows false)
              "c" "v" 0 0 eq_refl eq_refl) as (s1 & Hset & _ & _ & Hframe & Hget).
  exists s1. split; [exact Hset|]. split.
  - apply Hget. lia.
  - destruct (Hframe None "a" 0) as (H & _); [discriminate|].
    rewrite H. vm_compute. reflexivity.
Defined.

(** X8: after [Del], the key is gone for every read ([Get] and [TTL]
    answer [ErrKeyNotFound], [Exists] false, none of them spawning
    anything), and every read of another key returns what it returned
    before. *)
Theorem Del_removes_one_key (s : Store) (d : DB) (key : string) :
  db s = Some d -> db_closed d = false ->
  exists s1,
    Store_Del s None key = Returns s1 None /\
    detached s1 = detached s /\
    (forall now,
        Store_Get s1 None key now = Returns s1 ("", Some ErrKeyNotFound) /\
        Store_Exists s1 None key now = Returns s1 (false, None) /\
        Store_TTL s1 None key now = Returns s1 (0, Some ErrKeyNotFound)) /\
    (forall env key' now, key' <> key ->
        result_of (Store_Get s1 env key' now) = result_of (Store_Get s env key' now) /\
        result_of (Store_Exists s1 env key' now)
          = result_of (Store_Exists s env key' now) /\
        result_of (Store_TTL s1 env key' now) = result_of (Store_TTL s env key' now)).
Proof.
  intros Hd Hc.
  set (d1 := mkDB (delete key (rel d)) false).
  assert (Hr : rel d1 !! key = None) by apply lookup_delete_eq.
  exists (with_db s d1).
  split; [exact (Del_healthy s d key Hd Hc)|]. split; [reflexivity|]. split.
  - intros now. split; [|split].
    + exact (Get_absent (with_db s d1) d1 key now eq_refl eq_refl Hr).
    + exact (Exists_absent (with_db s d1) d1 key now eq_refl eq_refl Hr).
    + exact (TTL_absent (with_db s d1) d1 key now eq_refl eq_refl Hr).
  - intros env key' now Hne.
    apply (reads_depend_on_row s (with_db s d1) d d1); try reflexivity; try assumption.
    + simpl. now rewrite Hc.
    + simpl. apply lookup_delete_ne. congruence.
Qed.

Lemma Del_removes_one_key_witness :
  exists s1,
    Store_Del (store_of three_rows) None "a" = Returns s1 None /\
    Store_Get s1 None "a" 0 = Returns s1 ("", Some ErrKeyNotFound) /\
    result_of (Store_Exists s1 None "c" 0) = Some (true, None).
Proof.
  destruct (Del_removes_one_key (store_of three_rows) (mkDB three_rows false)
              "a" eq_refl eq_refl) as (s1 & Hdel & _ & Hgone & Hframe).
  exists s1. split; [exact Hdel|]. split.
  - apply Hgone.
  - destruct (Hframe None "c" 0) as (_ & H & _); [discriminate|].
    rewrite H. vm_compute. reflexivity.
Defined.

(** ** What the reads return *)

(** X9: whenever a read returns an error, the value beside it is the zero
    value: the empty string for [Get], the duration 0 for [TTL], false for
    [Exists] and no keys for [Keys]. *)
Theorem errors_carry_zero_values
    (sql_like : string -> string -> bool) (s : Store) :
  (forall env key now s' v e,
      Store_Get s env key now = Returns s' (v, Some e) -> v = "") /\
  (forall env key now s' t e,
      Store_TTL s env key now = Returns s' (t, Some e) -> t = 0) /\
  (forall env key now s' b e,
      Store_Exists s env key now = Returns s' (b, Some e) -> b = false) /\
  (forall env clock pattern s' ks e,
      Store_Keys sql_like s env clock pattern = Returns s' (ks, Some e) -> ks = []).
Proof.
  split; [|split; [|split]].
  - intros env key now s' v e. unfold Store_Get.
    destruct (db s) as [d|]; [|discriminate].
    destruct (db_QueryRow d env key) as [|f|r]; try (now intros [= _ <- _]).
    destruct (value r); [|now intros [= _ <- _]].
    destruct (negb (String.eqb (type r) "string")); [now intros [= _ <- _]|].
    destruct (expires_at r) as [x|]; [destruct (Unix now >? x)|];
      try discriminate; now intros [= _ <- _].
  - intros env key now s' t e. unfold Store_TTL.
    destruct (db s) as [d|]; [|discriminate].
    destruct (db_QueryRow d env key) as [|f|r]; try (now intros [= _ <- _]).
    destruct (negb (String.eqb (type r) "string")); [now intros [= _ <- _]|].
    destruct (expires_at r) as [x|]; [destruct (Before (time_Unix x) now)|];
      try discriminate; now intros [= _ <- _].
  - intros env key now s' b e. unfold Store_Exists.
    destruct (db s) as [d|]; [|discriminate].
    destruct (db_QueryRow d env key) as [|f|r]; try discriminate;
      try (now intros [= _ <- _]).
    destruct (expires_at r) as [x|]; [destruct (Unix now >? x)|]; discriminate.
  - intros env clock pattern s' ks e. unfold Store_Keys, Store_Keys_run.
    destruct (db s) as [d|]; [|discriminate].
    destruct (db_Query sql_like d env (globToSQLLike pattern)) as [f|rows [f|]];
      unfold Keys_on; try (now intros [= _ <- _]).
    rewrite spawn_deletes. discriminate.
Qed.

(** X10: without a storage failure [Exists] never returns an error, and
    it answers true exactly when the key has a row, of whatever type and
    with or without value, that is not expired in whole seconds; a true
    answer leaves the store untouched. *)
Theorem Exists_ignores_type (s : Store) (d : DB) (key : string) (now : Time) :
  db s = Some d -> db_closed d = false ->
  exists s' b,
    Store_Exists s None key now = Returns s' (b, None) /\
    (b = true <->
     exists r, rel d !! key = Some r /\ ~ isExpired (expires_at r) (Unix now)) /\
    (b = true -> s' = s).
Proof.
  intros Hd Hc. unfold Store_Exists, db_QueryRow.
  rewrite Hd, call_fault_open by exact Hc.
  destruct (rel d !! key) as [r|] eqn:Hr.
  - destruct (expires_at r) as [e|] eqn:He.
    + destruct (Unix now >? e) eqn:Hgt.
      * eexists _, false. split; [reflexivity|]. split; [|discriminate].
        split; [discriminate|]. intros (r' & [= <-] & Hne). exfalso. apply Hne.
        rewrite He. now apply isExpired_gtb.
      * eexists _, true. split; [reflexivity|]. split; [|reflexivity].
        split; [|reflexivity]. intros _. exists r. split; [reflexivity|].
        rewrite He, isExpired_gtb, Hgt. discriminate.
    + eexists _, true. split; [reflexivity|]. split; [|reflexivity].
      split; [|reflexivity]. intros _. exists r. split; [reflexivity|].
      rewrite He. apply not_isExpired_None.
  - eexists _, false. split; [reflexivity|]. split; [|discriminate].
    split; [discriminate|]. now intros (r' & [=] & _).
Qed.

Lemma Exists_ignores_type_witness :
  exists s' b,
    Store_Exists (store_of three_rows) None "c" 0 = Returns s' (b, None) /\
    (b = true <->
     exists r, three_rows !! "c" = Some r /\ ~ isExpired (expires_at r) (Unix 0)) /\
    (b = true -> s' = store_of three_rows).
Proof.
  apply (Exists_ignores_type (store_of three_rows) (mkDB three_rows false) "c" 0);
    reflexivity.
Defined.

(** X11: when [TTL] returns no error it has changed nothing, the key has a
    row of type ["string"], and the duration is -1 exactly when the row
    has no expiration timestamp; otherwise the timestamp is not before the
    current instant and the duration is the time left until it, capped
    at the largest duration, hence never negative. *)
Theorem TTL_success_values
    (s s' : Store) (env : option Fault) (key : string) (now : Time) (t : Duration) :
  Store_TTL s env key now = Returns s' (t, None) ->
  s' = s /\
  exists d r,
    db s = Some d /\ rel d !! key = Some r /\ type r = "string" /\
    ((expires_at r = None /\ t = -1) \/
     (exists e, expires_at r = Some e /\ now <= time_Unix e /\
                t = Z.min (time_Unix e - now) maxDuration /\ 0 <= t)).
Proof.
  unfold Store_TTL, db_QueryRow.
  destruct (db s) as [d|]; [|discriminate].
  destruct (call_fault d env); [discriminate|].
  destruct (rel d !! key) as [r|] eqn:Hr; [|discriminate].
  destruct (String.eqb_spec (type r) "string") as [Ht|Ht]; simpl; [|discriminate].
  destruct (expires_at r) as [e|] eqn:He.
  - unfold Before. destruct (Z.ltb_spec (time_Unix e) now) as [Hlt|Hge]; [discriminate|].
    intros [= <- <-]. split; [reflexivity|]. exists d, r.
    repeat split; try assumption. right. exists e.
    split; [exact He|]. split; [exact Hge|].
    unfold Sub, minDuration, maxDuration.
    destruct (Z.ltb_spec (time_Unix e - now) (- 2 ^ 63)) as [H1|H1]; [lia|].
    destruct (Z.ltb_spec (2 ^ 63 - 1) (time_Unix e - now)) as [H2|H2]; lia.
  - intros [= <- <-]. split; [reflexivity|]. exists d, r.
    repeat split; try assumption. now left.
Qed.

Lemma TTL_success_values_witness :
  let s := store_of three_rows in
  s = s /\
  exists d r,
    db s = Some d /\ rel d !! "b" = Some r /\ type r = "string" /\
    ((expires_at r = None /\ 50 * Second = -1) \/
     (exists e, expires_at r = Some e /\ 50 * Second <= time_Unix e /\
                50 * Second = Z.min (time_Unix e - 50 * Second) maxDuration /\
                0 <= 50 * Second)).
Proof.
  cbv zeta.
  apply (TTL_success_values (store_of three_rows) (store_of three_rows) None "b"
           (50 * Second) (50 * Second)).
  vm_compute. reflexivity.
Defined.



Lemma errors_carry_zero_values_witness :
  exists s' v e,
    Store_Get (store_of three_rows) None "c" 0 = Returns s' (v, Some e) /\ v = "".
Proof.
  eexists _, _, _. split; [vm_compute; reflexivity|].
  destruct (errors_carry_zero_values like_any (store_of three_rows)) as (H & _).
  apply (H None "c" 0 (store_of three_rows) "" ErrWrongType).
  vm_compute. reflexivity.
Defined.


(** ** Detached deletions *)

Lemma run_detached_healthy s d i key :
  db s = Some d -> db_closed d = false -> detached s !! i = Some key ->
  run_detached s i None =
    Some (with_db (with_detached s (delete i (detached s)))
            (mkDB (delete key (rel d)) false)).
Proof.
  intros Hd Hc Hi. unfold run_detached. rewrite Hi.
  now rewrite (Del_healthy (with_detached s (delete i (detached s))) d key Hd Hc).
Qed.

(** X13: a detached deletion is unconditional: it deletes whatever row
    the key has when it runs.  So when a read finds a key expired and
    spawns its deletion, and the key is set again before that deletion
    runs, the new value is readable until the deletion runs and lost
    afterwards. *)
Theorem detached_deletion_removes_a_later_write
    (s : Store) (d : DB) (key : string) (r : Row) (e : Z)
    (value : string) (ttl : Duration) (now now1 : Time) :
  db s = Some d -> db_closed d = false -> rel d !! key = Some r ->
  expires_at r = Some e -> e < Unix now -> ttl <= 0 ->
  exists s1 s2 s3,
    Store_Exists s None key now = Returns s1 (false, None) /\
    Store_Set s1 None key value ttl now1 = Returns s2 None /\
    (forall now', Store_Get s2 None key now' = Returns s2 (value, None)) /\
    run_detached s2 (length (detached s)) None = Some s3 /\
    (forall now', Store_Get s3 None key now' = Returns s3 ("", Some ErrKeyNotFound)) /\
    (forall now', Store_Exists s3 None key now' = Returns s3 (false, None)).
Proof.
  intros Hd Hc Hr He Hlt Httl.
  assert (Hn : (0 <? ttl) = false) by (apply Z.ltb_ge; lia).
  set (d2 := mkDB (<[key := mkRow (Some value) "string" None]> (rel d)) false).
  set (s2 := with_db (go_Del s key) d2).
  set (d3 := mkDB (delete key (rel d2)) false).
  set (s3 := with_db (with_detached s2 (delete (length (detached s)) (detached s2))) d3).
  exists (go_Del s key), s2, s3.
  split; [|split; [|split; [|split; [|split]]]].
  - rewrite (Exists_expiry s d key r e now Hd Hc Hr He).
    apply Z.ltb_lt in Hlt. now rewrite Hlt.
  - rewrite (Set_healthy (go_Del s key) d key value ttl now1 Hd Hc), Hn. reflexivity.
  - intros now'.
    apply (Get_permanent s2 d2 key (mkRow (Some value) "string" None) value now');
      try reflexivity. apply lookup_insert_eq.
  - apply (run_detached_healthy s2 d2 (length (detached s)) key); try reflexivity.
    simpl. apply list_lookup_middle. reflexivity.
  - intros now'. apply (Get_absent s3 d3 key now'); try reflexivity.
    apply lookup_delete_eq.
  - intros now'. apply (Exists_absent s3 d3 key now'); try reflexivity.
    apply lookup_delete_eq.
Qed.

Lemma detached_deletion_removes_a_later_write_witness :
  exists s1 s2 s3,
    Store_Exists (store_of three_rows) None "b" (200 * Second) = Returns s1 (false, None) /\
    Store_Set s1 None "b" "new" 0 (201 * Second) = Returns s2 None /\
    (forall now', Store_Get s2 None "b" now' = Returns s2 ("new", None)) /\
    run_detached s2 (length (detached (store_of three_rows))) None = Some s3 /\
    (forall now', Store_Get s3 None "b" now' = Returns s3 ("", Some ErrKeyNotFound)) /\
    (forall now', Store_Exists s3 None "b" now' = Returns s3 (false, None)).
Proof.
  apply (detached_deletion_removes_a_later_write (store_of three_rows)
           (mkDB three_rows false) "b" (mkRow (Some "2") "string" (Some 100)) 100
           "new" 0 (200 * Second) (201 * Second));
    try reflexivity; vm_compute; congruence.
Defined.

(** ** The cleanup goroutine *)

Lemma lookup_kept (m : gmap string Row) threshold key :
  filter (fun kr : string * Row => sql_expired threshold kr.2 = false) m !! key =
  match m !! key with
  | Some r => if sql_expired threshold r then None else Some r
  | None => None
  end.
Proof.
  apply option_eq. intros r. rewrite map_lookup_filter_Some. simpl.
  destruct (m !! key) as [r'|]; [|split; [intros [[=] _]|discriminate]].
  destruct (sql_expired threshold r') eqn:Hx.
  - split; [intros [[= <-] H]; congruence|discriminate].
  - split; [now intros [[= <-] _]|]. intros [= <-]. now split.
Qed.

Lemma kept_twice (m : gmap string Row) threshold :
  filter (fun kr : string * Row => sql_expired threshold kr.2 = false)
    (filter (fun kr : string * Row => sql_expired threshold kr.2 = false) m) =
  filter (fun kr : string * Row => sql_expired threshold kr.2 = false) m.
Proof.
  apply map_eq. intros key. rewrite !lookup_kept.
  destruct (m !! key) as [r|]; [|reflexivity].
  destruct (sql_expired threshold r) eqn:Hx; [reflexivity|]. now rewrite Hx.
Qed.

(** X14: a tick of the cleanup goroutine on a healthy handle deletes
    exactly the rows whose expiration timestamp is strictly less than the
    current whole second and keeps every other row as it is; it spawns
    nothing; right after it [Exists] finds no expired row at that time, so
    it answers without spawning a deletion; and a second tick at the same
    time changes nothing at all. *)
Theorem cleanup_tick_deletes_exactly_the_expired
    (s : Store) (d : DB) (i : nat) (sw : Sweeper) (now : Time) :
  db s = Some d -> db_closed d = false ->
  sweepers s !! i = Some sw -> pc sw = SwLooping ->
  exists s' d',
    sweeper_step s i (SelTick now None) = Some s' /\
    db s' = Some d' /\ db_closed d' = false /\
    (forall key,
        rel d' !! key =
        match rel d !! key with
        | Some r => if sql_expired (Unix now) r then None else Some r
        | None => None
        end) /\
    (forall r, sql_expired (Unix now) r = true <-> isExpired (expires_at r) (Unix now)) /\
    detached s' = detached s /\ sweepers s' = sweepers s /\
    (forall key, exists b, Store_Exists s' None key now = Returns s' (b, None)) /\
    sweeper_step s' i (SelTick now None) = Some s'.
Proof.
  intros Hd Hc Hi Hpc.
  set (kept := filter (fun kr : string * Row => sql_expired (Unix now) kr.2 = false)
                 (rel d)).
  set (d' := mkDB kept false).
  assert (Htick : exists s', cleanup_tick s d now None = s' /\
                    db s' = Some d' /\ detached s' = detached s /\
                    sweepers s' = sweepers s /\
                    with_db s' d' = s').
  { unfold cleanup_tick, db_delete_expired.
    rewrite call_fault_open by exact Hc. fold kept. rewrite Hc. fold d'.
    destruct (_ >? 0); eexists; (split; [reflexivity|]); repeat split. }
  destruct Htick as (s' & Hs' & Hd' & Hdet & Hsw & Hsame).
  exists s', d'.
  assert (Hlook : forall key,
             rel d' !! key =
             match rel d !! key with
             | Some r => if sql_expired (Unix now) r then None else Some r
             | None => None
             end) by (intros key; apply lookup_kept).
  split; [|split; [exact Hd'|split; [reflexivity|split; [exact Hlook|split;
            [|split; [exact Hdet|split; [exact Hsw|split]]]]]]].
  - unfold sweeper_step. now rewrite Hi, Hd, Hpc, Hs'.
  - intros r. unfold sql_expired, isExpired.
    destruct (expires_at r) as [e|].
    + rewrite Z.ltb_lt. split; [intros H; now exists e|].
      now intros (x & [= <-] & H).
    + split; [discriminate|]. now intros (x & [=] & _).
  - intros key. destruct (rel d' !! key) as [r|] eqn:Hr.
    + assert (Hx : sql_expired (Unix now) r = false).
      { pose proof Hr as H0. rewrite Hlook in H0.
        destruct (rel d !! key) as [r0|]; [|discriminate].
        destruct (sql_expired (Unix now) r0) eqn:Hx; [discriminate|].
        now injection H0 as <-. }
      exists true. unfold sql_expired in Hx.
      destruct (expires_at r) as [e|] eqn:He.
      * rewrite (Exists_expiry s' d' key r e now Hd' eq_refl Hr He).
        now rewrite Hx.
      * exact (Exists_permanent s' d' key r now Hd' eq_refl Hr He).
    + exists false. exact (Exists_absent s' d' key now Hd' eq_refl Hr).
  - unfold sweeper_step. rewrite Hsw, Hi, Hd', Hpc.
    unfold cleanup_tick, db_delete_expired. simpl.
    assert (Hk : filter (fun kr : string * Row => sql_expired (Unix now) kr.2 = false)
                   kept = kept) by apply kept_twice.
    rewrite Hk, Z.sub_diag. simpl. fold d'. now rewrite Hsame.
Qed.

Lemma cleanup_tick_deletes_exactly_the_expired_witness :
  exists s' d',
    sweeper_step sweeping_store 0 (SelTick (200 * Second) None) = Some s' /\
    db s' = Some d' /\ db_closed d' = false /\
    (forall key,
        rel d' !! key =
        match three_rows !! key with
        | Some r => if sql_expired (Unix (200 * Second)) r then None else Some r
        | None => None
        end) /\
    (forall r, sql_expired (Unix (200 * Second)) r = true
               <-> isExpired (expires_at r) (Unix (200 * Second))) /\
    detached s' = detached sweeping_store /\ sweepers s' = sweepers sweeping_store /\
    (forall key, exists b,
        Store_Exists s' None key (200 * Second) = Returns s' (b, None)) /\
    sweeper_step s' 0 (SelTick (200 * Second) None) = Some s'.
Proof.
  apply (cleanup_tick_deletes_exactly_the_expired sweeping_store
           (mkDB three_rows false) 0 (mkSweeper Second SwLooping) (200 * Second));
    reflexivity.
Defined.

(** X15: a cleanup goroutine in its loop cannot stop while the context is
    not cancelled; once [Close] has been called it can stop, printing that
    it did and leaving the list of goroutines, and a tick that still fires
    after [Close] deletes nothing: it fails on the closed handle and only
    logs the failure. *)
Theorem cleanup_stops_only_after_Close
    (s : Store) (d : DB) (i : nat) (sw : Sweeper) (env0 : option Fault) :
  db s = Some d -> ctx s = Some false ->
  sweepers s !! i = Some sw -> pc sw = SwLooping ->
  sweeper_step s i SelDone = None /\
  let s' := (Store_Close s env0).1 in
  ctx s' = Some true /\
  sweeper_step s' i SelDone =
    Some (print (with_sweepers s' (delete i (sweepers s)))
            (MsgCleanupStopped (table s))) /\
  (forall now env,
      sweeper_step s' i (SelTick now env) =
        Some (eprint s' (MsgCleanupError (table s) FaultClosed))).
Proof.
  intros Hd Hctx Hi Hpc. split.
  - unfold sweeper_step. now rewrite Hi, Hd, Hpc, Hctx.
  - cbv zeta. unfold Store_Close. rewrite Hd, Hctx. simpl.
    split; [reflexivity|]. split.
    + unfold sweeper_step. simpl. now rewrite Hi, Hpc.
    + intros now env. unfold sweeper_step. simpl. now rewrite Hi, Hpc.
Qed.

Lemma cleanup_stops_only_after_Close_witness :
  sweeper_step sweeping_store 0 SelDone = None /\
  let s' := (Store_Close sweeping_store None).1 in
  ctx s' = Some true /\
  sweeper_step s' 0 SelDone =
    Some (print (with_sweepers s' (delete 0%nat (sweepers sweeping_store)))
            (MsgCleanupStopped (table sweeping_store))) /\
  (forall now env,
      sweeper_step s' 0 (SelTick now env) =
        Some (eprint s' (MsgCleanupError (table sweeping_store) FaultClosed))).
Proof.
  apply (cleanup_stops_only_after_Close sweeping_store (mkDB three_rows false) 0
           (mkSweeper Second SwLooping) None);
    reflexivity.
Defined.

(** ** The keys that Keys returns *)

(** [set_solver] clears hypotheses by name and warns when one is absent. *)
#[local] Set Warnings "-clear-no-such-hyp".

Lemma scan_row_NoDup clock st r rows :
  NoDup (keys st ++ keysToDelete st ++ row_keys (r :: rows)) ->
  NoDup (keys (scan_row clock st r) ++ keysToDelete (scan_row clock st r)
         ++ row_keys rows).
Proof.
  unfold row_keys. simpl flat_map. fold (row_keys rows).
  generalize (row_keys rows). intros rest.
  destruct r as [key ty exp|f]; simpl.
  2: { intros Hn. exact Hn. }
  destruct (negb (String.eqb ty "string")); simpl.
  { rewrite !NoDup_app, NoDup_cons.
    intros (Ha & Hb & Hc & Hd & He & Hf). repeat split; try assumption; set_solver. }
  destruct exp as [e|]; [destruct (Unix (clock key) >? e)|]; simpl;
    rewrite !NoDup_app, NoDup_cons;
    intros (Ha & Hb & Hc & Hd & He & Hf);
    repeat split; try assumption; try apply NoDup_singleton; set_solver.
Qed.

Lemma scan_rows_NoDup clock rows st :
  NoDup (keys st ++ keysToDelete st ++ row_keys rows) ->
  NoDup (keys (fold_left (scan_row clock) rows st)
         ++ keysToDelete (fold_left (scan_row clock) rows st)).
Proof.
  revert st. induction rows as [|r rows IH]; intros st Hn; simpl.
  - simpl in Hn. now rewrite app_nil_r in Hn.
  - apply IH. now apply scan_row_NoDup.
Qed.

Lemma db_Query_rows (sql_like : string -> string -> bool) d env sqlPattern rows err :
  db_Query sql_like d env sqlPattern = QueryRows rows err ->
  exists l : list (string * Row),
    rows = map (scan_of env) l /\ NoDup (l.*1) /\
    forall key r, In (key, r) l ->
                  rel d !! key = Some r /\ sql_like sqlPattern key = true.
Proof.
  unfold db_Query. destruct (call_fault d (query_fault env)); [discriminate|].
  set (matched := filter (fun kr : string * Row => sql_like sqlPattern kr.1 = true)
                    (map_to_list (rel d))).
  assert (Hin : forall key r, In (key, r) matched ->
                  rel d !! key = Some r /\ sql_like sqlPattern key = true)
    by (intros key r H; now apply In_matched in H).
  assert (Hnd : NoDup matched)
    by (apply NoDup_filter, NoDup_map_to_list).
  assert (Hsub : forall l : list (string * Row),
             l `sublist_of` matched ->
             NoDup (l.*1) /\
             forall key r, In (key, r) l ->
                           rel d !! key = Some r /\ sql_like sqlPattern key = true).
  { intros l Hl.
    assert (Hl' : forall key r, In (key, r) l -> In (key, r) matched).
    { intros key r H. apply list_elem_of_In. apply list_elem_of_In in H.
      eapply sublist_subseteq; eassumption. }
    split; [|intros key r H; apply Hin, Hl', H].
    apply NoDup_fmap_fst.
    - intros key r1 r2 H1 H2.
      apply list_elem_of_In, Hl', Hin in H1. apply list_elem_of_In, Hl', Hin in H2.
      destruct H1 as [H1 _], H2 as [H2 _]. congruence.
    - eapply sublist_NoDup; eassumption. }
  destruct (next_fault env) as [[n f]|]; intros [= <- _].
  - exists (take n matched). split; [reflexivity|]. apply Hsub, sublist_take.
  - exists matched. split; [reflexivity|]. apply Hsub. reflexivity.
Qed.

Lemma row_keys_scan_of env (l : list (string * Row)) :
  (forall x, x ∈ row_keys (map (scan_of env) l) -> x ∈ l.*1) /\
  (NoDup (l.*1) -> NoDup (row_keys (map (scan_of env) l))).
Proof.
  induction l as [|[k r] l [IH1 IH2]]; simpl.
  - split; [intros x H; exact H|intros _; constructor].
  - unfold scan_of at 1 3. simpl. destruct (scan_fault env k); simpl.
    + split; [intros x H; right; now apply IH1|].
      intros H. apply NoDup_cons in H. now apply IH2.
    + split.
      * intros x H. apply elem_of_cons in H. destruct H as [->|H]; [now left|].
        right. now apply IH1.
      * intros H. apply NoDup_cons in H. destruct H as [Hk H].
        apply NoDup_cons. split; [|now apply IH2].
        intros Hin. apply Hk. now apply IH1.
Qed.

Lemma scanned_row_origin env (l : list (string * Row)) key ty e :
  In (RowScanned key ty e) (map (scan_of env) l) ->
  exists r, In (key, r) l /\ ty = type r /\ e = expires_at r /\
            scan_fault env key = None.
Proof.
  intros Hin. apply in_map_iff in Hin. destruct Hin as ([k r] & Heq & Hin).
  unfold scan_of in Heq. simpl in Heq.
  destruct (scan_fault env k) eqn:Hk; [discriminate|].
  injection Heq as <- <- <-. now exists r.
Qed.

(** X16: whatever failures are injected, [Keys] returns no key twice and
    queues no key twice, returns no key that it queues for deletion, and
    returns or queues only keys that are stored with type ["string"],
    match the translated pattern and could be decoded; the keys returned
    were not expired when examined and the keys queued were. *)
Theorem Keys_returns_each_stored_key_once
    (sql_like : string -> string -> bool) (s s' : Store) (env : KeysEnv)
    (clock : string -> Time) (pattern : string)
    (ks : list string) (err : option error) :
  Store_Keys sql_like s env clock pattern = Returns s' (ks, err) ->
  NoDup ks /\
  exists dels,
    detached s' = detached s ++ dels /\ NoDup dels /\
    (forall key, In key ks -> ~ In key dels) /\
    (forall key, In key ks \/ In key dels ->
       exists d r, db s = Some d /\ rel d !! key = Some r /\ type r = "string" /\
                   sql_like (globToSQLLike pattern) key = true /\
                   scan_fault env key = None /\
                   (In key ks -> ~ isExpired (expires_at r) (Unix (clock key))) /\
                   (In key dels -> isExpired (expires_at r) (Unix (clock key)))).
Proof.
  unfold Store_Keys, Store_Keys_run.
  destruct (db s) as [d|] eqn:Hd; [|discriminate].
  destruct (db_Query sql_like d env (globToSQLLike pattern)) as [f|rows qerr] eqn:Hq.
  { simpl. intros [= <- <- _]. split; [constructor|]. exists [].
    rewrite app_nil_r. repeat split; [constructor|intros key []|].
    intros key [[]|[]]. }
  apply db_Query_rows in Hq. destruct Hq as (l & -> & Hnd & Hl).
  unfold Keys_on.
  set (st := fold_left (scan_row clock) (map (scan_of env) l)
               (mkScanLoop [] [] s [EvQuery (globToSQLLike pattern)])).
  destruct (scan_rows_store clock (map (scan_of env) l)
              (mkScanLoop [] [] s [EvQuery (globToSQLLike pattern)]))
    as (_ & _ & _ & _ & Hdet & _).
  fold st in Hdet. simpl in Hdet.
  destruct qerr as [f|].
  { simpl. intros [= <- <- _]. split; [constructor|]. exists [].
    rewrite app_nil_r. repeat split; [exact Hdet|constructor|intros key []|].
    intros key [[]|[]]. }
  rewrite spawn_deletes. simpl. intros [= <- <- _].
  assert (Hnodup : NoDup (keys st ++ keysToDelete st)).
  { apply scan_rows_NoDup. simpl. now apply row_keys_scan_of. }
  apply NoDup_app in Hnodup. destruct Hnodup as (Hnk & Hdisj & Hndel).
  split; [exact Hnk|]. exists (keysToDelete st).
  split; [simpl; now rewrite Hdet|]. split; [exact Hndel|]. split.
  - intros key Hin Hin'. apply list_elem_of_In in Hin, Hin'. exact (Hdisj key Hin Hin').
  - assert (Huniq : forall key r ty e,
               In (key, r) l -> In (RowScanned key ty e) (map (scan_of env) l) ->
               ty = type r /\ e = expires_at r /\ scan_fault env key = None).
    { intros key r ty e Hr H. apply scanned_row_origin in H.
      destruct H as (r' & Hr' & -> & -> & Hsf).
      apply Hl in Hr, Hr'. destruct Hr as [Hr _], Hr' as [Hr' _].
      assert (r' = r) by congruence. now subst r'. }
    assert (Hks : forall key, In key (keys st) ->
               exists e, In (RowScanned key "string" e) (map (scan_of env) l) /\
                         ~ isExpired e (Unix (clock key))).
    { intros key H. unfold st in H. apply scan_rows_keys in H.
      destruct H as [[]|H]. exact H. }
    assert (Hdels : forall key, In key (keysToDelete st) ->
               exists e, In (RowScanned key "string" e) (map (scan_of env) l) /\
                         isExpired e (Unix (clock key))).
    { intros key H. unfold st in H. apply scan_rows_keysToDelete in H.
      destruct H as [[]|H]. exact H. }
    intros key Hkey.
    assert (Hrow : exists e, In (RowScanned key "string" e) (map (scan_of env) l))
      by (destruct Hkey as [H|H];
          [apply Hks in H|apply Hdels in H]; destruct H as (e & H & _); now exists e).
    destruct Hrow as (e & Hrow).
    pose proof Hrow as Horig. apply scanned_row_origin in Horig.
    destruct Horig as (r & Hr & Hty & -> & Hsf).
    destruct (Hl key r Hr) as [Hlook Hlike].
    exists d, r. repeat split; try assumption; try congruence.
    + intros H Hexp. apply Hks in H. destruct H as (e' & H & Hne).
      destruct (Huniq key r _ _ Hr H) as (_ & -> & _). now apply Hne.
    + intros H. apply Hdels in H. destruct H as (e' & H & He).
      destruct (Huniq key r _ _ Hr H) as (_ & -> & _). exact He.
Qed.

Lemma Keys_returns_each_stored_key_once_witness :
  let s := store_of three_rows in
  let clock := fun _ : string => 200 * Second in
  NoDup ["a"] /\
  exists dels,
    detached (go_Del s "b") = detached s ++ dels /\ NoDup dels /\
    (forall key, In key ["a"] -> ~ In key dels) /\
    (forall key, In key ["a"] \/ In key dels ->
       exists d r, db s = Some d /\ rel d !! key = Some r /\ type r = "string" /\
                   like_any (globToSQLLike "*") key = true /\
                   scan_fault no_faults key = None /\
                   (In key ["a"] -> ~ isExpired (expires_at r) (Unix (clock key))) /\
                   (In key dels -> isExpired (expires_at r) (Unix (clock key)))).
Proof.
  cbv zeta.
  apply (Keys_returns_each_stored_key_once like_any (store_of three_rows)
           (go_Del (store_of three_rows) "b") no_faults
           (fun _ => 200 * Second) "*" ["a"] None).
  vm_compute. reflexivity.
Defined.

(** ** The comparison helper of the tests *)

(** X17: [sliceEqual] answers true exactly when the two slices are
    equal: same length and the same string at every index. *)
Theorem sliceEqual_decides_equality (a b : list string) :
  sliceEqual a b = true <-> a = b.
Proof.
  unfold sliceEqual. split.
  - destruct (Nat.eqb_spec (length a) (length b)) as [Hlen|Hlen]; simpl;
      [|discriminate].
    intros H. apply (nth_ext a b "" ""); [exact Hlen|].
    intros n Hn. rewrite forallb_forall in H.
    apply String.eqb_eq, H, in_seq. lia.
  - intros <-. rewrite Nat.eqb_refl. simpl. apply forallb_forall.
    intros i _. apply String.eqb_refl.
Qed.

(** ** The lifetime of a key set with a TTL *)

(** X18: a key set with a positive TTL [t] at instant [now] gets the
    expiration timestamp [now + t] rounded down to whole seconds.  [Get]
    and [Exists] then serve it at every instant up to the end of that
    second and report it absent from the next second on; [TTL] returns a
    remaining duration at every instant up to the start of that second
    and [ErrKeyNotFound] after it. *)
Theorem Set_ttl_lifetime
    (s : Store) (d : DB) (key value : string) (t : Duration) (now : Time) :
  db s = Some d -> db_closed d = false -> 0 < t ->
  exists s1,
    Store_Set s None key value t now = Returns s1 None /\
    forall now',
      (Unix now' <= Unix (Add now t) ->
         Store_Get s1 None key now' = Returns s1 (value, None) /\
         Store_Exists s1 None key now' = Returns s1 (true, None)) /\
      (Unix (Add now t) < Unix now' ->
         Store_Get s1 None key now' =
           Returns (go_Del s1 key) ("", Some ErrKeyNotFound) /\
         Store_Exists s1 None key now' = Returns (go_Del s1 key) (false, None)) /\
      (now' <= time_Unix (Unix (Add now t)) ->
         Store_TTL s1 None key now' =
           Returns s1 (Sub (time_Unix (Unix (Add now t))) now', None)) /\
      (time_Unix (Unix (Add now t)) < now' ->
         Store_TTL s1 None key now' =
           Returns (go_Del s1 key) (0, Some ErrKeyNotFound)).
Proof.
  intros Hd Hc Ht.
  assert (Hpos : (0 <? t) = true) by (apply Z.ltb_lt; lia).
  set (e := Unix (Add now t)).
  set (r := mkRow (Some value) "string" (Some e)).
  set (d1 := mkDB (<[key := r]> (rel d)) false).
  assert (Hr : rel d1 !! key = Some r) by apply lookup_insert_eq.
  exists (with_db s d1). split.
  - rewrite (Set_healthy s d key value t now Hd Hc), Hpos. reflexivity.
  - intros now'.
    rewrite (Get_expiry (with_db s d1) d1 key r value e now'
               eq_refl eq_refl Hr eq_refl eq_refl eq_refl).
    rewrite (Exists_expiry (with_db s d1) d1 key r e now' eq_refl eq_refl Hr eq_refl).
    rewrite (TTL_expiry (with_db s d1) d1 key r e now'
               eq_refl eq_refl Hr eq_refl eq_refl).
    split; [|split; [|split]]; intros H.
    + assert (Hb : (e <? Unix now') = false) by (apply Z.ltb_ge; lia).
      now rewrite Hb.
    + assert (Hb : (e <? Unix now') = true) by (apply Z.ltb_lt; lia).
      now rewrite Hb.
    + assert (Hb : (time_Unix e <? now') = false) by (apply Z.ltb_ge; lia).
      now rewrite Hb.
    + assert (Hb : (time_Unix e <? now') = true) by (apply Z.ltb_lt; lia).
      now rewrite Hb.
Qed.

Lemma Set_ttl_lifetime_witness :
  exists s1,
    Store_Set (store_of three_rows) None "k" "v" (500 * Millisecond)
      (100 * Second + 200 * Millisecond) = Returns s1 None /\
    Store_Get s1 None "k" (100 * Second + 900 * Millisecond) = Returns s1 ("v", None) /\
    Store_TTL s1 None "k" (100 * Second + 900 * Millisecond) =
      Returns (go_Del s1 "k") (0, Some ErrKeyNotFound).
Proof.
  destruct (Set_ttl_lifetime (store_of three_rows) (mkDB three_rows false)
              "k" "v" (500 * Millisecond) (100 * Second + 200 * Millisecond))
    as (s1 & Hset & Hlife); [reflexivity | reflexivity | reflexivity |].
  exists s1. split; [exact Hset|].
  destruct (Hlife (100 * Second + 900 * Millisecond)) as (Hget & _ & _ & Httl).
  split.
  - apply Hget. vm_compute. discriminate.
  - apply Httl. vm_compute. reflexivity.
Defined.
